(** * Gopher2600: a shallow embedding of the emulator core

    The development follows the Go sources package by package:

    - [Fmt], [Errors]: the few pieces of [fmt] and of the [errors] package
      that the modelled functions call;
    - [Colors]: [television/colors/32bit.go], the palettes built by [init];
    - [Register]: the bit-width register exercised by [TestRegister];
    - [Execution]: [Result.IsValid] of [hardware/cpu/execution];
    - [Memory]: [VCSMemory.Read] and [VCSMemory.Write];
    - [Video]: the [sprite] type of the TIA video package;
    - [Television]: [BasicTelevision] and its [Signal] method;
    - [Commandline]: [Commands.ValidateTokens] and [node.validate].

    Go's [int] is taken to be 64 bits wide, [uint8], [uint16] and [int32] are
    integers of [Z] with their wrap-around written out. *)

From Stdlib Require Import ZArith List String Ascii Bool Lia.
From Stdlib Require Import DecimalString HexadecimalString.
Import ListNotations.
Open Scope Z_scope.

(** ** Machine integers *)

Module GoInt.

(** Wrap-around of a signed integer of [w] bits. *)
Definition wrap_signed (w : Z) (z : Z) : Z :=
  (z + 2 ^ (w - 1)) mod 2 ^ w - 2 ^ (w - 1).

(** Go's [int] on a 64-bit platform. *)
Definition int (z : Z) : Z := wrap_signed 64 z.
Definition int32 (z : Z) : Z := wrap_signed 32 z.
Definition uint8 (z : Z) : Z := z mod 256.
Definition uint16 (z : Z) : Z := z mod 65536.

Definition max_int : Z := 2 ^ 63 - 1.
Definition min_int : Z := - 2 ^ 63.

End GoInt.

(** ** Formatting *)

Module Fmt.

Open Scope string_scope.

(** The verb [%d]. *)
Definition dec (z : Z) : string := DecimalString.NilZero.string_of_int (Z.to_int z).

(** The verb [%#02x] on a non-negative integer: the prefix and at least two
    hexadecimal digits. *)
Definition hex02 (z : Z) : string :=
  let digits := HexadecimalString.NilZero.string_of_uint (N.to_hex_uint (Z.to_N z)) in
  "0x" ++ (if (String.length digits <? 2)%nat then "0" ++ digits else digits).

(** [strings.ToUpper].  On a string of ASCII bytes alone it upper-cases
    the bytes a to z; any other string it maps rune by rune through
    [unicode.ToUpper], whose tables are the Go library's: that mapping of a
    whole string is the parameter [mapUpper]. *)
Definition upper_ascii (c : ascii) : ascii :=
  let n := nat_of_ascii c in
  if ((97 <=? n) && (n <=? 122))%nat then ascii_of_nat (n - 32) else c.

Fixpoint upperBytes (s : string) : string :=
  match s with
  | EmptyString => EmptyString
  | String c rest => String (upper_ascii c) (upperBytes rest)
  end.

Fixpoint isASCII (s : string) : bool :=
  match s with
  | EmptyString => true
  | String c rest => (nat_of_ascii c <? 128)%nat && isASCII rest
  end.

Definition ToUpper (mapUpper : string -> string) (s : string) : string :=
  if isASCII s then upperBytes s else mapUpper s.

End Fmt.

(** ** The errors package

    An [AtariError] carries one of the package's message identifiers and the
    values formatted into it; every other Go error (one made by [fmt.Errorf],
    say) is [PlainError]. *)

Module Errors.

Inductive Errno : Type :=
| PanicError
| MemoryError
| UnwritableAddress
| UnreadableAddress
| InvalidResult
| OutOfSpec
| BasicTelevision
| ValidationError
| RendererError.

Inductive error : Type :=
| AtariError (Message : Errno) (Values : list value)
| PlainError (text : string)
with value : Type :=
| VString (s : string)
| VInt (z : Z)
| VError (e : error).

(** [errors.New] with string arguments. *)
Definition New (errno : Errno) (msgs : list string) : error :=
  AtariError errno (map VString msgs).

(** The type assertion [err.(errors.AtariError)]. *)
Definition isAtariError (e : error) : bool :=
  match e with
  | AtariError _ _ => true
  | PlainError _ => false
  end.

End Errors.

(** ** television/colors/32bit.go *)

Module Colors.

Record RGB : Type := mkRGB { Red : Z; Green : Z; Blue : Z }.

Definition alt32bit : list Z :=
  [0x111111; 0x84c8fc; 0x9246c0; 0x901c00; 0xe8e84a; 0xd5824a; 0x328432].

Definition ntsc32bit : list Z :=
  [0x000000; 0x404040; 0x6c6c6c; 0x909090; 0xb0b0b0; 0xc8c8c8; 0xdcdcdc; 0xececec;
   0x444400; 0x646410; 0x848424; 0xa0a034; 0xb8b840; 0xd0d050; 0xe8e85c; 0xfcfc68;
   0x702800; 0x844414; 0x985c28; 0xac783c; 0xbc8c4c; 0xcca05c; 0xdcb468; 0xecc878;
   0x841800; 0x983418; 0xac5030; 0xc06848; 0xd0805c; 0xe09470; 0xeca880; 0xfcbc94;
   0x880000; 0x9c2020; 0xb03c3c; 0xc05858; 0xd07070; 0xe08888; 0xeca0a0; 0xfcb4b4;
   0x78005c; 0x8c2074; 0xa03c88; 0xb0589c; 0xc070b0; 0xd084c0; 0xdc9cd0; 0xecb0e0;
   0x480078; 0x602090; 0x783ca4; 0x8c58b8; 0xa070cc; 0xb484dc; 0xc49cec; 0xd4b0fc;
   0x140084; 0x302098; 0x4c3cac; 0x6858c0; 0x7c70d0; 0x9488e0; 0xa8a0ec; 0xbcb4fc;
   0x000088; 0x1c209c; 0x3840b0; 0x505cc0; 0x6874d0; 0x7c8ce0; 0x90a4ec; 0xa4b8fc;
   0x00187c; 0x1c3890; 0x3854a8; 0x5070bc; 0x6888cc; 0x7c9cdc; 0x90b4ec; 0xa4c8fc;
   0x002c5c; 0x1c4c78; 0x386890; 0x5084ac; 0x689cc0; 0x7cb4d4; 0x90cce8; 0xa4e0fc;
   0x003c2c; 0x1c5c48; 0x387c64; 0x509c80; 0x68b494; 0x7cd0ac; 0x90e4c0; 0xa4fcd4;
   0x003c00; 0x205c20; 0x407c40; 0x5c9c5c; 0x74b474; 0x8cd08c; 0xa4e4a4; 0xb8fcb8;
   0x143800; 0x345c1c; 0x507c38; 0x6c9850; 0x84b468; 0x9ccc7c; 0xb4e490; 0xc8fca4;
   0x2c3000; 0x4c501c; 0x687034; 0x848c4c; 0x9ca864; 0xb4c078; 0xccd488; 0xe0ec9c;
   0x442800; 0x644818; 0x846830; 0xa08444; 0xb89c58; 0xd0b46c; 0xe8cc7c; 0xfce08c].

Definition pal32bit : list Z :=
  [0x000000; 0x282828; 0x505050; 0x747474; 0x949494; 0xb4b4b4; 0xd0d0d0; 0xececec;
   0x000000; 0x282828; 0x505050; 0x747474; 0x949494; 0xb4b4b4; 0xd0d0d0; 0xececec;
   0x805800; 0x947020; 0xa8843c; 0xbc9c58; 0xccac70; 0xdcc084; 0xecd09c; 0xfce0b0;
   0x445c00; 0x5c7820; 0x74903c; 0x8cac58; 0xa0c070; 0xb0d484; 0xc4e89c; 0xd4fcb0;
   0x703400; 0x885020; 0xa0683c; 0xb48458; 0xc89870; 0xdcac84; 0xecc09c; 0xfcd4b0;
   0x006414; 0x208034; 0x3c9850; 0x58b06c; 0x70c484; 0x84d89c; 0x9ce8b4; 0xb0fcc8;
   0x700014; 0x882034; 0xa03c50; 0xb4586c; 0xc87084; 0xdc849c; 0xec9cb4; 0xfcb0c8;
   0x005c5c; 0x207474; 0x3c8c8c; 0x58a4a4; 0x70b8b8; 0x84c8c8; 0x9cdcdc; 0xb0ecec;
   0x70005c; 0x842074; 0x943c88; 0xa8589c; 0xb470b0; 0xc484c0; 0xd09cd0; 0xe0b0e0;
   0x003c70; 0x1c5888; 0x3874a0; 0x508cb4; 0x68a4c8; 0x7cb8dc; 0x90ccec; 0xa4e0fc;
   0x580070; 0x6c2088; 0x803ca0; 0x9458b4; 0xa470c8; 0xb484dc; 0xc49cec; 0xd4b0fc;
   0x002070; 0x1c3c88; 0x3858a0; 0x5074b4; 0x6888c8; 0x7ca0dc; 0x90b4ec; 0xa4c8fc;
   0x3c0080; 0x542094; 0x6c3ca8; 0x8058bd; 0x9470cc; 0xa884dc; 0xb89cec; 0xc8b0fc;
   0x000088; 0x20209c; 0x3c3cb0; 0x5858c0; 0x7070d0; 0x8484e0; 0x9c9cec; 0xb0b0fc;
   0x000000; 0x282828; 0x505050; 0x747474; 0x949494; 0xb4b4b4; 0xd0d0d0; 0xececec;
   0x000000; 0x282828; 0x505050; 0x747474; 0x949494; 0xb4b4b4; 0xd0d0d0; 0xececec].

(** The three components of a raw colour, each converted with [byte(...)]. *)
Definition components (col : Z) : RGB :=
  mkRGB (GoInt.uint8 (Z.shiftr (Z.land col 0xff0000) 16))
        (GoInt.uint8 (Z.shiftr (Z.land col 0xff00) 8))
        (GoInt.uint8 (Z.land col 0xff)).

(** One iteration of the first two loops of [init]: two appends. *)
Definition appendTwice (palette : list RGB) (col : Z) : list RGB :=
  (palette ++ [components col]) ++ [components col].

(** One iteration of the third loop. *)
Definition appendOnce (palette : list RGB) (col : Z) : list RGB :=
  palette ++ [components col].

(** The palettes are empty before [init] runs. *)
Definition PaletteNTSC : list RGB := fold_left appendTwice ntsc32bit [].
Definition PalettePAL : list RGB := fold_left appendTwice pal32bit [].
Definition PaletteAlt : list RGB := fold_left appendOnce alt32bit [].

(** The two appends of one iteration, as one. *)
Definition twice (col : Z) : list RGB := [components col; components col].

End Colors.

(** ** The bit-width register (package registers/r16bit) *)

Module Register.

(** Modelled from the spec: the register implementation is not among the
    sources, only its test [TestRegister] is.  The spec describes an n-bit
    unsigned cell whose operations are modulo 2^n, with a carry out of the
    addition, and whose printed form is a fixed-width binary string. *)
Record Register : Type := mkRegister { value : Z; size : nat }.

Definition modulus (r : Register) : Z := 2 ^ Z.of_nat (size r).

(** Modelled from the spec: construct with (initialValue, widthBits). *)
Definition Generate (v : Z) (bits : nat) : Register :=
  mkRegister (v mod 2 ^ Z.of_nat bits) bits.

(** Modelled from the spec: loading v then reading equals v mod 2^n. *)
Definition Load (r : Register) (v : Z) : Register :=
  mkRegister (v mod modulus r) (size r).

(** Modelled from the spec: add-with-carry, modulo 2^n, returning the carry
    out of the top bit. *)
Definition Add (r : Register) (v : Z) (carry : bool) : Register * bool :=
  let sum := value r + v mod modulus r + (if carry then 1 else 0) in
  (mkRegister (sum mod modulus r) (size r), modulus r <=? sum).

(** Modelled from the spec: the fixed-width binary representation, most
    significant bit first. *)
Fixpoint bits (n : nat) (v : Z) : string :=
  match n with
  | O => EmptyString
  | S k => String (if Z.testbit v (Z.of_nat k) then "1"%char else "0"%char) (bits k v)
  end.

Definition ToBits (r : Register) : string := bits (size r) (value r).

End Register.

(** ** hardware/cpu/execution/validity.go *)

Module Execution.

Inductive EffectCategory : Type :=
| Read | Write | RMW | Flow | Subroutine | Interrupt | Other.

(** The instruction definition (type [instructions.Definition]).  Its
    declaration is not among the sources; the fields are the ones [IsValid]
    reads.  Modelled from the spec: [IsBranch] is not among the sources
    either, the spec lists a branch flag in the definition, which is what
    [IsBranch] returns here. *)
Record InstructionDefinition : Type := mkDefinition {
  OpCode : Z;
  Mnemonic : string;
  Bytes : Z;
  Cycles : Z;
  PageSensitive : bool;
  Effect : EffectCategory;
  IsBranch : bool
}.

Record Result : Type := mkResult {
  Defn : InstructionDefinition;
  ByteCount : Z;
  ActualCycles : Z;
  PageFault : bool;
  CPUBug : string;
  Final : bool
}.

Open Scope string_scope.

Definition msgBytes (r : Result) : string :=
  "unexpected number of bytes read during decode (" ++ Fmt.dec (ByteCount r)
  ++ " instead of " ++ Fmt.dec (Bytes (Defn r)) ++ ")".

Definition msgCyclesHead (r : Result) : string :=
  "number of cycles wrong for opcode " ++ Fmt.hex02 (OpCode (Defn r))
  ++ " [" ++ Mnemonic (Defn r) ++ "] (" ++ Fmt.dec (ActualCycles r) ++ " instead of ".

Definition msgCyclesBranch (r : Result) : string :=
  msgCyclesHead r ++ Fmt.dec (Cycles (Defn r)) ++ ", "
  ++ Fmt.dec (GoInt.int (Cycles (Defn r) + 1)) ++ " or "
  ++ Fmt.dec (GoInt.int (Cycles (Defn r) + 2)) ++ ")".

Definition msgCyclesPage (r : Result) : string :=
  msgCyclesHead r ++ Fmt.dec (Cycles (Defn r)) ++ ", "
  ++ Fmt.dec (GoInt.int (Cycles (Defn r) + 1)) ++ ")".

Definition msgCycles (r : Result) : string :=
  msgCyclesHead r ++ Fmt.dec (Cycles (Defn r)) ++ ")".

Definition invalid (msg : string) : option Errors.error :=
  Some (Errors.New Errors.InvalidResult [msg]).

(** [Result.IsValid]: [None] is Go's [nil]. *)
Definition IsValid (result : Result) : option Errors.error :=
  if negb (Final result) then
    invalid "execution not finalised (bad opcode?)"
  else if negb (PageSensitive (Defn result)) && PageFault result then
    invalid "unexpected page fault"
  else if negb (ByteCount result =? Bytes (Defn result))%Z then
    invalid (msgBytes result)
  else if String.eqb (CPUBug result) "" then
    if IsBranch (Defn result) then
      if negb (ActualCycles result =? Cycles (Defn result))%Z
         && negb (ActualCycles result =? GoInt.int (Cycles (Defn result) + 1))%Z
         && negb (ActualCycles result =? GoInt.int (Cycles (Defn result) + 2))%Z
      then invalid (msgCyclesBranch result)
      else None
    else if PageSensitive (Defn result) then
      if PageFault result
         && negb (ActualCycles result =? Cycles (Defn result))%Z
         && negb (ActualCycles result =? GoInt.int (Cycles (Defn result) + 1))%Z
      then invalid (msgCyclesPage result)
      else None
    else
      if negb (ActualCycles result =? Cycles (Defn result))%Z
      then invalid (msgCycles result)
      else None
  else None.

(** The cycle counts the specification allows: the base count, one more
    for a page-crossed page-sensitive instruction, one or two more for a
    branch. *)
Definition cyclesAsDocumented (result : Result) : Prop :=
  let base := Cycles (Defn result) in
  let actual := ActualCycles result in
  if IsBranch (Defn result) then
    actual = base \/ actual = GoInt.int (base + 1) \/ actual = GoInt.int (base + 2)
  else if PageSensitive (Defn result) && PageFault result then
    actual = base \/ actual = GoInt.int (base + 1)
  else actual = base.

(** The contract as the specification words it. *)
Definition validAsDocumented (result : Result) : Prop :=
  ByteCount result = Bytes (Defn result)
  /\ (CPUBug result <> "" \/ cyclesAsDocumented result).

(** [IsValid] looks at the cycle count of a result unless the instruction is
    a page-sensitive one that is no branch, met no page fault and hit no
    bug. *)
Definition cyclesChecked (result : Result) : Prop :=
  IsBranch (Defn result) = true
  \/ PageSensitive (Defn result) = false
  \/ PageFault result = true
  \/ CPUBug result <> ""%string.

(** A page fault on an instruction that is not page-sensitive. *)
Definition unexpectedPageFault (result : Result) : Prop :=
  PageSensitive (Defn result) = false /\ PageFault result = true.

(** The result of a four-cycle absolute,X load that crossed a page: five
    cycles, three bytes. *)
Definition crossedLoad : Result :=
  mkResult (mkDefinition 0xbd "LDA" 3 4 true Read false) 3 5 true "" true.

(** A two-cycle implied instruction reported with a page fault, and a
    page-sensitive load that met no page fault and took nine cycles. *)
Definition faultedNop : Result :=
  mkResult (mkDefinition 0xea "NOP" 1 2 false Other false) 1 2 true "" true.

Definition slowLoad : Result :=
  mkResult (mkDefinition 0xbd "LDA" 3 4 true Read false) 3 9 false "" true.

End Execution.

(** ** hardware/memory/memory.go *)

Module Memory.

(** The areas of [memorymap]: the four that [GetArea] knows, and [Unmapped]
    for every other value of the integer type [memorymap.Area]. *)
Inductive Area : Type := TIA | PIA | RIOT | Cartridge | Unmapped.

(** [VCSMemory].  [Chips] is the state of the four memory areas (the
    cartridge included), which [VCSMemory] holds by pointer. *)
Record VCSMemory (Chips : Type) : Type := mkVCSMemory {
  chips : Chips;
  LastAccessAddress : Z;
  LastAccessValue : Z;
  LastAccessWrite : bool;
  LastAccessID : Z;
  accessCount : Z
}.

Arguments mkVCSMemory {Chips}.
Arguments chips {Chips}.
Arguments LastAccessAddress {Chips}.
Arguments LastAccessValue {Chips}.
Arguments LastAccessWrite {Chips}.
Arguments LastAccessID {Chips}.
Arguments accessCount {Chips}.

(** [VCSMemory.GetArea]: the area itself, or a [MemoryError]. *)
Definition GetArea (area : Area) : Area + Errors.error :=
  match area with
  | TIA => inl TIA
  | PIA => inl PIA
  | RIOT => inl RIOT
  | Cartridge => inl Cartridge
  | Unmapped => inr (Errors.New Errors.MemoryError ["area not mapped correctly"%string])
  end.

(** The byte a masked read returns: the chip drives the bits of [mask], the
    other bits keep what [floating] left on the bus. *)
Definition masked (data mask floating : Z) : Z :=
  Z.lor (Z.land data mask) (Z.land floating (Z.lxor mask 0xff)).

(** What the specification says floats on the bus: the high byte of the
    address. *)
Definition highByte (address : Z) : Z := GoInt.uint8 (Z.land (Z.shiftr address 8) 0xff).

(** What floats on the bus when the address has no high byte. *)
Definition lowByte (address : Z) : Z := GoInt.uint8 (Z.land address 0x00ff).

Section Bus.

(** The parts of the memory packages that are not among the sources are
    parameters: the address map, the table of data masks, the [CPUBus]
    methods of the areas and the cartridge's [Listen]. *)
Variable Chips : Type.
Variable MapAddress : Z -> bool -> Z * Area.
Variable DataMasks : list Z.
Variable areaRead : Area -> Z -> Chips -> (Z * option Errors.error) * Chips.
Variable areaWrite : Area -> Z -> Z -> Chips -> option Errors.error * Chips.
Variable Listen : Z -> Z -> Chips -> option Errors.error * Chips.

(** The data-bus masking of [Read], on the mapped address [ma]. *)
Definition applyDataMask (address ma data : Z) : Z :=
  if ma <? GoInt.uint16 (Z.of_nat (List.length DataMasks)) then
    if address >? 0xff then
      masked data (nth (Z.to_nat ma) DataMasks 0) (highByte address)
    else
      masked data (nth (Z.to_nat ma) DataMasks 0) (lowByte address)
  else data.

(** [VCSMemory.Read]. *)
Definition Read (mem : VCSMemory Chips) (address : Z)
  : (Z * option Errors.error) * VCSMemory Chips :=
  let '(ma, ar) := MapAddress address true in
  match GetArea ar with
  | inr err => ((0, Some err), mem)
  | inl area =>
      let '((data, err), chips1) := areaRead area ma (chips mem) in
      let data := applyDataMask address ma data in
      ((data, err),
       mkVCSMemory chips1 ma data false (accessCount mem)
                   (GoInt.int (accessCount mem + 1)))
  end.

(** [VCSMemory.Write]. *)
Definition Write (mem : VCSMemory Chips) (address data : Z)
  : option Errors.error * VCSMemory Chips :=
  let '(ma, ar) := MapAddress address false in
  match GetArea ar with
  | inr err => (Some err, mem)
  | inl area =>
      let '(lerr, chips1) := Listen address data (chips mem) in
      let mem1 := mkVCSMemory chips1 ma data true (accessCount mem)
                              (GoInt.int (accessCount mem + 1)) in
      let write :=
        let '(werr, chips2) := areaWrite area ma data chips1 in
        (werr, mkVCSMemory chips2 ma data true (accessCount mem)
                           (GoInt.int (accessCount mem + 1))) in
      match lerr with
      | Some err => if negb (Errors.isAtariError err) then (Some err, mem1) else write
      | None => write
      end
  end.

End Bus.

(** A sample instance, for the examples: the mirroring of the 13-bit bus
    into the four areas and the masks of the TIA read registers (two
    collision bits, or one; one input bit). *)
Definition sampleMapAddress (address : Z) (read : bool) : Z * Area :=
  if Z.land address 0x1000 =? 0x1000 then (Z.land address 0x0fff, Cartridge)
  else if Z.land address 0x0280 =? 0x0280 then (Z.land address 0x0287, RIOT)
  else if Z.land address 0x0080 =? 0x0080 then (Z.land address 0x00ff, PIA)
  else if read then (Z.land address 0x000f, TIA)
  else (Z.land address 0x003f, TIA).

Definition sampleDataMasks : list Z :=
  [0xc0; 0xc0; 0xc0; 0xc0; 0xc0; 0xc0; 0x80; 0xc0;
   0x80; 0x80; 0x80; 0x80; 0x80; 0x80].

(** Chips that hold one byte per area, read it back and accept every write;
    a cartridge that refuses every [Listen] as unwritable. *)
Definition sampleChips : Type := Area -> Z.

Definition sampleRead (area : Area) (ma : Z) (c : sampleChips)
  : (Z * option Errors.error) * sampleChips := ((c area, None), c).

Definition area_eqb (a b : Area) : bool :=
  match a, b with
  | TIA, TIA | PIA, PIA | RIOT, RIOT | Cartridge, Cartridge | Unmapped, Unmapped => true
  | _, _ => false
  end.

Definition sampleWrite (area : Area) (ma data : Z) (c : sampleChips)
  : option Errors.error * sampleChips :=
  (None, fun a => if area_eqb a area then data else c a).

Definition sampleListen (address data : Z) (c : sampleChips)
  : option Errors.error * sampleChips :=
  (Some (Errors.AtariError Errors.UnwritableAddress [Errors.VInt address]), c).

Definition sampleMemory : VCSMemory sampleChips :=
  mkVCSMemory (fun _ => 0) 0 0 false 0 0.



(** The masking as the specification words it: chip bits where the mask is
    set, bits of the high byte of the bus address where it is clear. *)
Definition openBusAsDocumented (data mask address v : Z) : Prop :=
  forall i, 0 <= i < 8 ->
    Z.testbit v i =
    if Z.testbit mask i then Z.testbit data i else Z.testbit (highByte address) i.

(** An access of the CPU, and the memory after a sequence of them. *)
Inductive Access : Type :=
| ReadAt (address : Z)
| WriteAt (address data : Z).

Section Accesses.

Variable Chips : Type.
Variable MapAddress : Z -> bool -> Z * Area.
Variable DataMasks : list Z.
Variable areaRead : Area -> Z -> Chips -> (Z * option Errors.error) * Chips.
Variable areaWrite : Area -> Z -> Z -> Chips -> option Errors.error * Chips.
Variable Listen : Z -> Z -> Chips -> option Errors.error * Chips.

Definition access (mem : VCSMemory Chips) (a : Access) : VCSMemory Chips :=
  match a with
  | ReadAt address => snd (Read Chips MapAddress DataMasks areaRead mem address)
  | WriteAt address data => snd (Write Chips MapAddress areaWrite Listen mem address data)
  end.

(** The identifiers that a sequence of accesses leaves in [LastAccessID],
    one after the other. *)
Fixpoint accessIDs (mem : VCSMemory Chips) (accesses : list Access) : list Z :=
  match accesses with
  | [] => []
  | a :: rest => LastAccessID (access mem a) :: accessIDs (access mem a) rest
  end.

(** The address of an access maps into one of the four areas. *)
Definition mapped (a : Access) : Prop :=
  match a with
  | ReadAt address => exists area, GetArea (snd (MapAddress address true)) = inl area
  | WriteAt address _ => exists area, GetArea (snd (MapAddress address false)) = inl area
  end.

End Accesses.

(** An address map that maps no address, for the examples. *)
Definition noMapAddress (address : Z) (read : bool) : Z * Area := (address, Unmapped).

End Memory.

(** ** The sprite type of the TIA video package *)

Module Video.

(** [polycounter.Polycounter] and [future.Instance]: their declarations are
    not among the sources; the fields are the ones the sprite code reads. *)
Record Polycounter : Type := mkPolycounter { Count : Z; Phase : Z; ResetPoint : Z }.

Record Future : Type := mkFuture { RemainingCycles : Z }.

Record sprite : Type := mkSprite {
  label : string;
  position : Polycounter;
  resetPixel : Z;
  currentPixel : Z;
  graphicsScanCounter : Z;
  graphicsScanMax : Z;
  graphicsScanOff : Z;
  horizMovement : Z;
  moreMovementRequired : bool;
  resetFuture : option Future;
  forceReset : Z
}.

Definition set_currentPixel (sp : sprite) (v : Z) : sprite :=
  mkSprite (label sp) (position sp) (resetPixel sp) v (graphicsScanCounter sp)
           (graphicsScanMax sp) (graphicsScanOff sp) (horizMovement sp)
           (moreMovementRequired sp) (resetFuture sp) (forceReset sp).

Definition set_moreMovementRequired (sp : sprite) (v : bool) : sprite :=
  mkSprite (label sp) (position sp) (resetPixel sp) (currentPixel sp)
           (graphicsScanCounter sp) (graphicsScanMax sp) (graphicsScanOff sp)
           (horizMovement sp) v (resetFuture sp) (forceReset sp).

Definition set_forceReset (sp : sprite) (v : Z) : sprite :=
  mkSprite (label sp) (position sp) (resetPixel sp) (currentPixel sp)
           (graphicsScanCounter sp) (graphicsScanMax sp) (graphicsScanOff sp)
           (horizMovement sp) (moreMovementRequired sp) (resetFuture sp) v.

Definition set_graphicsScanCounter (sp : sprite) (v : Z) : sprite :=
  mkSprite (label sp) (position sp) (resetPixel sp) (currentPixel sp) v
           (graphicsScanMax sp) (graphicsScanOff sp) (horizMovement sp)
           (moreMovementRequired sp) (resetFuture sp) (forceReset sp).

(** [sprite.prepareForHMOVE]. *)
Definition prepareForHMOVE (sp : sprite) : sprite :=
  let sp := set_moreMovementRequired sp true in
  set_currentPixel sp (GoInt.int (currentPixel sp + 8)).

(** [compareBits], on two [uint8]. *)
Definition compareBits (a b : Z) : bool :=
  (Z.land a 0x08 =? Z.land b 0x08) || (Z.land a 0x04 =? Z.land b 0x04)
  || (Z.land a 0x02 =? Z.land b 0x02) || (Z.land a 0x01 =? Z.land b 0x01).

(** "adjust position information": the decrement of [forceHMOVE] and
    [resolveHMOVE]. *)
Definition adjustPosition (sp : sprite) : sprite :=
  let sp := set_currentPixel sp (GoInt.int (currentPixel sp - 1)) in
  if currentPixel sp <? 0 then set_currentPixel sp 159 else sp.

(** [sprite.startDrawing], [sprite.isDrawing], [sprite.tickGraphicsScan]. *)
Definition startDrawing (sp : sprite) : sprite := set_graphicsScanCounter sp 0.

Definition isDrawing (sp : sprite) : bool := graphicsScanCounter sp <=? graphicsScanMax sp.

Definition tickGraphicsScan (sp : sprite) : sprite :=
  if isDrawing sp then set_graphicsScanCounter sp (GoInt.int (graphicsScanCounter sp + 1))
  else sp.

Section Ticking.

(** The callback [spriteTick] is set by the owner of the sprite (player,
    missile or ball); forcing the pending reset runs the payload of
    [resetFuture]; [delay.ForceReset] is a constant of a package that is not
    among the sources.  All three are parameters. *)
Variable spriteTick : sprite -> sprite.
Variable Force : sprite -> sprite.
Variable ForceReset : Z.

(** [sprite.forceHMOVE]. *)
Definition forceHMOVE (sp : sprite) (adjustment : Z) : sprite :=
  let hm := GoInt.int (horizMovement sp - GoInt.int (15 - adjustment)) in
  Nat.iter (Z.to_nat hm) (fun sp => spriteTick (adjustPosition sp)) sp.

(** The force-reset construct inside [resolveHMOVE]. *)
Definition resolveForceReset (sp : sprite) : sprite :=
  match resetFuture sp with
  | Some _ =>
      if forceReset sp =? 1 then set_forceReset (Force sp) 0
      else if forceReset sp =? 0 then set_forceReset sp ForceReset
      else set_forceReset sp (GoInt.int (forceReset sp - 1))
  | None => sp
  end.

(** [sprite.resolveHMOVE]. *)
Definition resolveHMOVE (sp : sprite) (count : Z) : sprite :=
  let sp := set_moreMovementRequired sp
              (moreMovementRequired sp
               && compareBits (GoInt.uint8 count) (GoInt.uint8 (horizMovement sp))) in
  if moreMovementRequired sp then
    spriteTick (adjustPosition (resolveForceReset sp))
  else sp.

End Ticking.

(** The visible-pixel coordinates of a scanline. *)
Definition visiblePixel (p : Z) : Prop := 0 <= p <= 159.

(** A sprite as [newSprite] makes it, placed at pixel [p]. *)
Definition spriteAt (p : Z) : sprite :=
  mkSprite "ball" (mkPolycounter 0 0 39) p p 9 8 9 0 false None 0.

(** The pixel to the left of [p], around the edge of the screen: what
    "adjust position information" makes of the current pixel. *)
Definition pixelToTheLeft (p : Z) : Z :=
  if GoInt.int (p - 1) <? 0 then 159 else GoInt.int (p - 1).

(** The counts for which the horizontal movement goes on: those before the
    first whose low nibble has no bit in common with the movement's. *)
Fixpoint movingCounts (horizMovement : Z) (counts : list Z) : nat :=
  match counts with
  | [] => O
  | count :: rest =>
      if compareBits (GoInt.uint8 count) (GoInt.uint8 horizMovement)
      then S (movingCounts horizMovement rest)
      else O
  end.

(** The counts of an HMOVE, fifteen down to one. *)
Definition hmoveCounts : list Z := [15; 14; 13; 12; 11; 10; 9; 8; 7; 6; 5; 4; 3; 2; 1].

(** A callback that leaves the pixel, the horizontal movement, the movement
    flag and the pending reset of the sprite as they are. *)
Definition keepsMovement (tick : sprite -> sprite) : Prop :=
  forall sp,
    currentPixel (tick sp) = currentPixel sp
    /\ horizMovement (tick sp) = horizMovement sp
    /\ moreMovementRequired (tick sp) = moreMovementRequired sp
    /\ resetFuture (tick sp) = resetFuture sp.

(** A sprite at pixel [p] whose movement register holds [hm]. *)
Definition movedSprite (p hm : Z) : sprite :=
  mkSprite "player0" (mkPolycounter 0 0 39) p p 9 8 9 hm false None 0.

End Video.

(** ** The television: BasicTelevision *)

Module Television.

(** The fields of [Specification] that [BasicTelevision] reads.  The
    declaration that goes with this version of the television is not among
    the sources, so theorems hold for every specification. *)
Record Specification : Type := mkSpecification {
  ID : string;
  ClocksPerHblank : Z;
  ClocksPerVisible : Z;
  VsyncClocks : Z;
  ScanlinesTotal : Z;
  IdealTop : Z;
  IdealBottom : Z;
  Colors : list Colors.RGB
}.

Record SignalAttributes : Type := mkSignal {
  VSync : bool;
  VBlank : bool;
  FrontPorch : bool;
  HSync : bool;
  CBurst : bool;
  Pixel : Z;
  AltPixel : Z
}.

(** The zero value [SignalAttributes{}]. *)
Definition noSignal : SignalAttributes := mkSignal false false false false false 0 0.

(** The [Renderer] interface: the four calls a television makes. *)
Inductive Call : Type :=
| NewFrame (frameNum : Z)
| NewScanline (scanline : Z)
| SetPixel (x y : Z) (red green blue : Z) (vblank : bool)
| SetAltPixel (x y : Z) (red green blue : Z) (vblank : bool).

(** An implementation of the interface, seen from the television: the calls
    it has received so far and the error it answers a call with, given that
    history. *)
Record Renderer : Type := mkRenderer {
  received : list Call;
  reply : list Call -> Call -> option Errors.error
}.

Record BasicTelevision : Type := mkTV {
  spec : Specification;
  outOfSpec : bool;
  endOfScreen : bool;
  horizPos : Z;
  frameNum : Z;
  scanline : Z;
  prevSignal : SignalAttributes;
  vsyncCount : Z;
  visibleTop : Z;
  visibleBottom : Z;
  pendingVisibleTop : Z;
  pendingVisibleBottom : Z;
  renderers : list Renderer
}.

Definition set_outOfSpec (b : BasicTelevision) (v : bool) : BasicTelevision :=
  mkTV (spec b) v (endOfScreen b) (horizPos b) (frameNum b) (scanline b)
       (prevSignal b) (vsyncCount b) (visibleTop b) (visibleBottom b)
       (pendingVisibleTop b) (pendingVisibleBottom b) (renderers b).

Definition set_endOfScreen (b : BasicTelevision) (v : bool) : BasicTelevision :=
  mkTV (spec b) (outOfSpec b) v (horizPos b) (frameNum b) (scanline b)
       (prevSignal b) (vsyncCount b) (visibleTop b) (visibleBottom b)
       (pendingVisibleTop b) (pendingVisibleBottom b) (renderers b).

Definition set_horizPos (b : BasicTelevision) (v : Z) : BasicTelevision :=
  mkTV (spec b) (outOfSpec b) (endOfScreen b) v (frameNum b) (scanline b)
       (prevSignal b) (vsyncCount b) (visibleTop b) (visibleBottom b)
       (pendingVisibleTop b) (pendingVisibleBottom b) (renderers b).

Definition set_frameNum (b : BasicTelevision) (v : Z) : BasicTelevision :=
  mkTV (spec b) (outOfSpec b) (endOfScreen b) (horizPos b) v (scanline b)
       (prevSignal b) (vsyncCount b) (visibleTop b) (visibleBottom b)
       (pendingVisibleTop b) (pendingVisibleBottom b) (renderers b).

Definition set_scanline (b : BasicTelevision) (v : Z) : BasicTelevision :=
  mkTV (spec b) (outOfSpec b) (endOfScreen b) (horizPos b) (frameNum b) v
       (prevSignal b) (vsyncCount b) (visibleTop b) (visibleBottom b)
       (pendingVisibleTop b) (pendingVisibleBottom b) (renderers b).

Definition set_prevSignal (b : BasicTelevision) (v : SignalAttributes) : BasicTelevision :=
  mkTV (spec b) (outOfSpec b) (endOfScreen b) (horizPos b) (frameNum b) (scanline b)
       v (vsyncCount b) (visibleTop b) (visibleBottom b)
       (pendingVisibleTop b) (pendingVisibleBottom b) (renderers b).

Definition set_vsyncCount (b : BasicTelevision) (v : Z) : BasicTelevision :=
  mkTV (spec b) (outOfSpec b) (endOfScreen b) (horizPos b) (frameNum b) (scanline b)
       (prevSignal b) v (visibleTop b) (visibleBottom b)
       (pendingVisibleTop b) (pendingVisibleBottom b) (renderers b).

Definition set_visible (b : BasicTelevision) (top bottom : Z) : BasicTelevision :=
  mkTV (spec b) (outOfSpec b) (endOfScreen b) (horizPos b) (frameNum b) (scanline b)
       (prevSignal b) (vsyncCount b) top bottom
       (pendingVisibleTop b) (pendingVisibleBottom b) (renderers b).

Definition set_pendingVisibleTop (b : BasicTelevision) (v : Z) : BasicTelevision :=
  mkTV (spec b) (outOfSpec b) (endOfScreen b) (horizPos b) (frameNum b) (scanline b)
       (prevSignal b) (vsyncCount b) (visibleTop b) (visibleBottom b)
       v (pendingVisibleBottom b) (renderers b).

Definition set_pendingVisibleBottom (b : BasicTelevision) (v : Z) : BasicTelevision :=
  mkTV (spec b) (outOfSpec b) (endOfScreen b) (horizPos b) (frameNum b) (scanline b)
       (prevSignal b) (vsyncCount b) (visibleTop b) (visibleBottom b)
       (pendingVisibleTop b) v (renderers b).

Definition set_renderers (b : BasicTelevision) (v : list Renderer) : BasicTelevision :=
  mkTV (spec b) (outOfSpec b) (endOfScreen b) (horizPos b) (frameNum b) (scanline b)
       (prevSignal b) (vsyncCount b) (visibleTop b) (visibleBottom b)
       (pendingVisibleTop b) (pendingVisibleBottom b) v.

(** A method of the television: it runs on the receiver, which it may have
    changed when it returns, and returns a value or an error. *)
Definition M (A : Type) : Type :=
  BasicTelevision -> BasicTelevision * (A + Errors.error).

Definition ret {A : Type} (a : A) : M A := fun b => (b, inl a).

Definition fail {A : Type} (e : Errors.error) : M A := fun b => (b, inr e).

Definition bind {A B : Type} (m : M A) (k : A -> M B) : M B :=
  fun b =>
    match m b with
    | (b1, inl a) => k a b1
    | (b1, inr e) => (b1, inr e)
    end.

Definition get : M BasicTelevision := fun b => (b, inl b).

Definition modify (f : BasicTelevision -> BasicTelevision) : M unit :=
  fun b => (f b, inl tt).

Definition when (c : bool) (m : M unit) : M unit := if c then m else ret tt.

Notation "x <- m ;; k" := (bind m (fun x => k))
  (at level 61, m at next level, right associativity).
Notation "m ;;; k" := (bind m (fun _ => k))
  (at level 61, right associativity).

(** One call of a renderer. *)
Definition deliver (r : Renderer) (c : Call) : Renderer * option Errors.error :=
  (mkRenderer (received r ++ [c]) (reply r), reply r (received r) c).

(** The loop [for f := range btv.renderers], which returns at the first
    error. *)
Fixpoint notify (rs : list Renderer) (c : Call) : list Renderer * option Errors.error :=
  match rs with
  | [] => ([], None)
  | r :: rest =>
      match deliver r c with
      | (r1, Some err) => (r1 :: rest, Some err)
      | (r1, None) => let '(rest1, e) := notify rest c in (r1 :: rest1, e)
      end
  end.

Definition send (c : BasicTelevision -> Call) : M unit :=
  fun b =>
    match notify (renderers b) (c b) with
    | (rs, None) => (set_renderers b rs, inl tt)
    | (rs, Some err) => (set_renderers b rs, inr err)
    end.

Definition outOfSpecError (msg : string) : Errors.error :=
  Errors.New Errors.OutOfSpec [msg].

(** [BasicTelevision.Reset]. *)
Definition Reset (b : BasicTelevision) : BasicTelevision :=
  let b := set_horizPos b (GoInt.int (- ClocksPerHblank (spec b))) in
  let b := set_frameNum b 0 in
  let b := set_scanline b 0 in
  let b := set_vsyncCount b 0 in
  let b := set_prevSignal b noSignal in
  let b := set_pendingVisibleTop b (IdealTop (spec b)) in
  set_pendingVisibleBottom b (IdealBottom (spec b)).

Section Signals.

(** [getColor] and the two specifications are declared in files of the
    package that are not among the sources; [mapUpper] is the Unicode
    mapping of [strings.ToUpper]. *)
Variable mapUpper : string -> string.
Variable getColor : Specification -> Z -> Z * Z * Z.
Variable SpecNTSC SpecPAL : Specification.

(** [NewBasicTelevision]. *)
Definition NewBasicTelevision (tvType : string) : BasicTelevision + Errors.error :=
  let fresh (s : Specification) :=
    mkTV s false false (GoInt.int (- ClocksPerHblank s)) 0 0 noSignal 0 0 0 0 0 [] in
  if String.eqb (Fmt.ToUpper mapUpper tvType) "NTSC" then inl (Reset (fresh SpecNTSC))
  else if String.eqb (Fmt.ToUpper mapUpper tvType) "PAL" then inl (Reset (fresh SpecPAL))
  else inr (Errors.New Errors.BasicTelevision
              [("unsupported tv type (" ++ tvType ++ ")")%string]).

(** [BasicTelevision.AddRenderer]. *)
Definition AddRenderer (b : BasicTelevision) (r : Renderer) : BasicTelevision :=
  set_renderers b (renderers b ++ [r]).

(** The HSYNC edges of [Signal]. *)
Definition checkHSync (sig : SignalAttributes) : M unit :=
  btv <- get ;;
  if HSync sig && negb (HSync (prevSignal btv)) then
    when ((horizPos btv <? -52) || (horizPos btv >? -49))
         (fail (outOfSpecError ("bad HSYNC (on at " ++ Fmt.dec (horizPos btv) ++ ")")))
  else if negb (HSync sig) && HSync (prevSignal btv) then
    when ((horizPos btv <? -36) || (horizPos btv >? -33))
         (fail (outOfSpecError ("bad HSYNC (off at " ++ Fmt.dec (horizPos btv) ++ ")")))
  else ret tt.

(** The CBURST edges. *)
Definition checkCBurst (sig : SignalAttributes) : M unit :=
  btv <- get ;;
  if CBurst sig && negb (CBurst (prevSignal btv)) then
    when ((horizPos btv <? -28) || (horizPos btv >? -17))
         (fail (outOfSpecError ("bad CBURST (on at " ++ Fmt.dec (horizPos btv) ++ ")")))
  else if negb (CBurst sig) && CBurst (prevSignal btv) then
    when ((horizPos btv <? -19) || (horizPos btv >? -16))
         (fail (outOfSpecError ("bad CBURST (off at " ++ Fmt.dec (horizPos btv) ++ ")")))
  else ret tt.

(** What the television does when VSYNC has been sustained. *)
Definition newFrame : M unit :=
  modify (fun b =>
    let b := set_outOfSpec b (negb (vsyncCount b =? VsyncClocks (spec b))) in
    let b := set_endOfScreen b false in
    let b := set_frameNum b (GoInt.int (frameNum b + 1)) in
    let b := set_scanline b 0 in
    let b := set_vsyncCount b 0 in
    set_visible b (pendingVisibleTop b) (pendingVisibleBottom b)) ;;;
  send (fun b => NewFrame (frameNum b)) ;;;
  modify (fun b =>
    set_pendingVisibleBottom (set_pendingVisibleTop b (IdealTop (spec b)))
                             (IdealBottom (spec b))).

(** "simple implementation of vsync". *)
Definition vsync (sig : SignalAttributes) : M unit :=
  if VSync sig then
    modify (fun b => set_vsyncCount b (GoInt.int (vsyncCount b + 1)))
  else
    btv <- get ;;
    when (vsyncCount btv >=? VsyncClocks (spec btv)) newFrame.

(** "start a new scanline if a frontporch signal has been received". *)
Definition frontPorch (sig : SignalAttributes) : M unit :=
  if FrontPorch sig then
    modify (fun b =>
      let b := set_horizPos b (GoInt.int (- ClocksPerHblank (spec b))) in
      set_scanline b (GoInt.int (scanline b + 1))) ;;;
    send (fun b => NewScanline (scanline b)) ;;;
    btv <- get ;;
    when (scanline btv >? ScanlinesTotal (spec btv))
         (modify (fun b => set_endOfScreen (set_outOfSpec b true) true))
  else
    modify (fun b => set_horizPos b (GoInt.int (horizPos b + 1))) ;;;
    btv <- get ;;
    when (horizPos btv >? ClocksPerVisible (spec btv))
         (fail (outOfSpecError "no FRONTPORCH")).

(** "push screen limits outwards as required": the bottom, then the top. *)
Definition pushBottom (b : BasicTelevision) : BasicTelevision :=
  if endOfScreen b && (scanline b >? pendingVisibleBottom b) then
    let b := set_pendingVisibleBottom b (GoInt.int (scanline b + 2)) in
    if pendingVisibleBottom b >? ScanlinesTotal (spec b)
    then set_pendingVisibleBottom b (ScanlinesTotal (spec b)) else b
  else b.

Definition pushTop (b : BasicTelevision) : BasicTelevision :=
  if scanline b <? pendingVisibleTop b then
    let b := set_pendingVisibleTop b (GoInt.int (scanline b - 2)) in
    if pendingVisibleTop b <? 0 then set_pendingVisibleTop b 0 else b
  else b.

Definition pushLimits (sig : SignalAttributes) (b : BasicTelevision) : BasicTelevision :=
  if negb (VBlank sig) then pushTop (pushBottom b) else b.

(** The pixels sent to the renderers while the screen has not ended. *)
Definition pixels (sig : SignalAttributes) : M unit :=
  btv <- get ;;
  when (negb (endOfScreen btv))
    (let x := GoInt.int32 (GoInt.int32 (horizPos btv)
                           + GoInt.int32 (ClocksPerHblank (spec btv))) in
     let y := GoInt.int32 (scanline btv) in
     (let '(red, green, blue) := getColor (spec btv) (Pixel sig) in
      send (fun _ => SetPixel x y red green blue (VBlank sig))) ;;;
     (let '(red, green, blue) := getColor (spec btv) (AltPixel sig) in
      send (fun _ => SetAltPixel x y red green blue (VBlank sig)))).

(** The rest of [Signal], after the new scanline or the clock. *)
Definition tail (sig : SignalAttributes) : M unit :=
  modify (pushLimits sig) ;;;
  modify (fun b => set_prevSignal b sig) ;;;
  pixels sig.

(** [BasicTelevision.Signal]. *)
Definition SignalM (sig : SignalAttributes) : M unit :=
  checkHSync sig ;;;
  checkCBurst sig ;;;
  vsync sig ;;;
  frontPorch sig ;;;
  tail sig.

(** The television after the call, and the error returned ([None] is Go's
    [nil]). *)
Definition Signal (btv : BasicTelevision) (sig : SignalAttributes)
  : BasicTelevision * option Errors.error :=
  match SignalM sig btv with
  | (b, inl _) => (b, None)
  | (b, inr e) => (b, Some e)
  end.

(** The television after a sequence of signals, whatever each call
    returned. *)
Definition Signals (btv : BasicTelevision) (sigs : list SignalAttributes)
  : BasicTelevision :=
  fold_left (fun b sig => fst (Signal b sig)) sigs btv.

(** The errors that the calls return along a sequence of signals. *)
Fixpoint SignalErrors (btv : BasicTelevision) (sigs : list SignalAttributes)
  : list (option Errors.error) :=
  match sigs with
  | [] => []
  | sig :: rest => snd (Signal btv sig) :: SignalErrors (fst (Signal btv sig)) rest
  end.

(** The two edge checks at the head of [Signal] let the signal through. *)
Definition edgesInSpec (btv : BasicTelevision) (sig : SignalAttributes) : bool :=
  match (checkHSync sig ;;; checkCBurst sig) btv with
  | (_, inl _) => true
  | (_, inr _) => false
  end.

(** The call gets as far as the front porch: neither the edge checks nor
    the handling of VSYNC returns an error. *)
Definition reachesFrontPorch (btv : BasicTelevision) (sig : SignalAttributes) : bool :=
  match (checkHSync sig ;;; checkCBurst sig ;;; vsync sig) btv with
  | (_, inl _) => true
  | (_, inr _) => false
  end.

(** Every signal of a sequence passes the edge checks when it arrives. *)
Fixpoint allEdgesInSpec (btv : BasicTelevision) (sigs : list SignalAttributes) : bool :=
  match sigs with
  | [] => true
  | sig :: rest => edgesInSpec btv sig && allEdgesInSpec (fst (Signal btv sig)) rest
  end.

End Signals.

(** The frame numbers of the [NewFrame] calls of a history, in order. *)
Fixpoint newFrames (calls : list Call) : list Z :=
  match calls with
  | [] => []
  | NewFrame n :: rest => n :: newFrames rest
  | _ :: rest => newFrames rest
  end.

(** The NTSC figures: 68 clocks of horizontal blank, 160 visible, three
    clocks of VSYNC, 262 scanlines. *)
Definition sampleNTSC : Specification :=
  mkSpecification "NTSC" 68 160 3 262 40 232 Colors.PaletteNTSC.

Definition sampleGetColor (s : Specification) (col : Z) : Z * Z * Z :=
  let c := nth (Z.to_nat col) (Colors s) (Colors.mkRGB 0 0 0) in
  (Colors.Red c, Colors.Green c, Colors.Blue c).

Definition samplePAL : Specification :=
  mkSpecification "PAL" 68 160 3 312 48 276 Colors.PalettePAL.

(** The television that [NewBasicTelevision] makes for NTSC. *)
Definition sampleTelevision : BasicTelevision :=
  mkTV sampleNTSC false false (-68) 0 0 noSignal 0 0 0 40 232 [].

(** A signal with VSYNC on and nothing else, and one with the front porch
    and nothing else. *)
Definition vsyncOn : SignalAttributes := mkSignal true false false false false 0 0.

Definition frontPorchOn : SignalAttributes := mkSignal false false true false false 0 0.



(** A renderer that accepts every call, and one that refuses every new
    frame. *)
Definition accepting : Renderer := mkRenderer [] (fun _ _ => None).


(** Two lists of renderers, one the other at a later time, with the same
    new-frame calls received. *)
Definition sameFrames (rs rs1 : list Renderer) : Prop :=
  Forall2 (fun r r1 => reply r1 = reply r
                       /\ newFrames (received r1) = newFrames (received r)) rs rs1.


Definition isNewFrame (c : Call) : bool :=
  match c with NewFrame _ => true | _ => false end.

(** What the last phases keep. *)
Record settled (b b1 : BasicTelevision) : Prop := mkSettled {
  settled_spec : spec b1 = spec b;
  settled_horizPos : horizPos b1 = horizPos b;
  settled_frameNum : frameNum b1 = frameNum b;
  settled_scanline : scanline b1 = scanline b;
  settled_vsyncCount : vsyncCount b1 = vsyncCount b;
  settled_frames : sameFrames (renderers b) (renderers b1)
}.

(** An error that is nil. *)
Definition returnedNil (e : option Errors.error) : bool :=
  match e with None => true | Some _ => false end.


(** The range the specification gives for the horizontal position. *)
Definition horizPosAsDocumented (b : BasicTelevision) : Prop :=
  - ClocksPerHblank (spec b) <= horizPos b <= ClocksPerVisible (spec b) - 1.

(** The calls that carry a pixel. *)
Definition isPixel (c : Call) : bool :=
  match c with
  | SetPixel _ _ _ _ _ _ | SetAltPixel _ _ _ _ _ _ => true
  | _ => false
  end.

(** Two lists of renderers, the second at a later time, that have received
    the same calls of the kind [P]. *)
Definition sameCalls (P : Call -> bool) (rs rs1 : list Renderer) : Prop :=
  Forall2 (fun r r1 => reply r1 = reply r
                       /\ filter P (received r1) = filter P (received r)) rs rs1.

(** The later list has received the call [c] after all the others. *)
Definition received_last (c : Call) (rs rs1 : list Renderer) : Prop :=
  Forall2 (fun r r1 => reply r1 = reply r /\ received r1 = received r ++ [c]) rs rs1.

(** The last [n] calls that a renderer has received. *)
Definition lastCalls (n : nat) (r : Renderer) : list Call :=
  skipn (List.length (received r) - n) (received r).

(** A pixel call with the colour that [getColor] returns. *)
Definition pixelCall (set : Z -> Z -> Z -> Z -> Z -> bool -> Call) (x y : Z)
           (colour : Z * Z * Z) (vblank : bool) : Call :=
  let '(red, green, blue) := colour in set x y red green blue vblank.

(** The pending limits of the screen are inside the frame. *)
Definition limitsWithin (b : BasicTelevision) : Prop :=
  0 <= pendingVisibleTop b /\ pendingVisibleBottom b <= ScanlinesTotal (spec b).

(** The ideal limits of a specification are inside its frame. *)
Definition idealWithin (s : Specification) : Prop :=
  0 <= IdealTop s /\ IdealBottom s <= ScanlinesTotal s.

(** The windows of the four edges that [Signal] checks. *)
Definition hsyncWindows (b : BasicTelevision) (sig : SignalAttributes) : Prop :=
  (HSync sig = true -> HSync (prevSignal b) = false -> -52 <= horizPos b <= -49)
  /\ (HSync sig = false -> HSync (prevSignal b) = true -> -36 <= horizPos b <= -33).

Definition cburstWindows (b : BasicTelevision) (sig : SignalAttributes) : Prop :=
  (CBurst sig = true -> CBurst (prevSignal b) = false -> -28 <= horizPos b <= -17)
  /\ (CBurst sig = false -> CBurst (prevSignal b) = true -> -19 <= horizPos b <= -16).

(** The number of signals of a sequence that carry VSYNC. *)
Definition vsyncClocks (sigs : list SignalAttributes) : Z :=
  Z.of_nat (List.length (filter VSync sigs)).

(** The limits of the screen that [GetState] reports are inside the frame. *)
Definition screenWithin (b : BasicTelevision) : Prop :=
  0 <= visibleTop b /\ visibleBottom b <= ScanlinesTotal (spec b).

(** The television as it enters the sending of the pixels. *)
Definition beforePixels (sig : SignalAttributes) (b : BasicTelevision) : BasicTelevision :=
  set_prevSignal (pushLimits sig b) sig.

(** The NTSC television with one renderer that accepts every call. *)
Definition watched : BasicTelevision := AddRenderer sampleTelevision accepting.

End Television.

(** ** debugger/terminal/commandline/validation.go *)

Module Commandline.

Open Scope string_scope.

(** *** strconv.ParseInt(s, 0, 32): does it return a nil error? *)

Definition lower (c : ascii) : ascii :=
  ascii_of_N (N.lor (N_of_ascii c) 0x20).

Definition between (lo c hi : ascii) : bool :=
  ((nat_of_ascii lo <=? nat_of_ascii c) && (nat_of_ascii c <=? nat_of_ascii hi))%nat.

Definition digitValue (c : ascii) : option Z :=
  if between "0" c "9" then Some (Z.of_nat (nat_of_ascii c) - 48)
  else if between "a" (lower c) "z" then Some (Z.of_nat (nat_of_ascii (lower c)) - 97 + 10)
  else None.

(** The digits of [ParseUint] in base [base], underscores skipped; [None]
    is a syntax error. *)
Fixpoint digits (base : Z) (acc : Z) (s : list ascii) : option Z :=
  match s with
  | [] => Some acc
  | c :: rest =>
      if Ascii.eqb c "_" then digits base acc rest
      else match digitValue c with
           | Some d => if (d <? base)%Z then digits base (acc * base + d) rest else None
           | None => None
           end
  end.

(** [underscoreOK], after the sign and the base prefix: [saw] is the kind
    of the previous character. *)
Fixpoint underscoresFrom (hex : bool) (saw : ascii) (s : list ascii) : bool :=
  match s with
  | [] => negb (Ascii.eqb saw "_")
  | c :: rest =>
      if between "0" c "9" || (hex && between "a" (lower c) "f") then
        underscoresFrom hex "0" rest
      else if Ascii.eqb c "_" then
        if Ascii.eqb saw "0" then underscoresFrom hex "_" rest else false
      else if Ascii.eqb saw "_" then false
      else underscoresFrom hex "!" rest
  end.

Definition stripSign (s : list ascii) : list ascii :=
  match s with
  | c :: rest => if Ascii.eqb c "+" || Ascii.eqb c "-" then rest else s
  | [] => s
  end.

Definition underscoreOK (s : list ascii) : bool :=
  match stripSign s with
  | c0 :: c1 :: rest =>
      if Ascii.eqb c0 "0"
         && (Ascii.eqb (lower c1) "b" || Ascii.eqb (lower c1) "o" || Ascii.eqb (lower c1) "x")
      then underscoresFrom (Ascii.eqb (lower c1) "x") "0" rest
      else underscoresFrom false "^" (c0 :: c1 :: rest)
  | s1 => underscoresFrom false "^" s1
  end.

(** The value [ParseUint(s, 0, _)] reads, without its range check. *)
Definition parseUint (s : list ascii) : option Z :=
  match s with
  | [] => None
  | c0 :: rest0 =>
      let value :=
        if Ascii.eqb c0 "0" then
          match rest0 with
          | c1 :: (_ :: _) as rest1 =>
              if Ascii.eqb (lower c1) "b" then digits 2 0 rest1
              else if Ascii.eqb (lower c1) "o" then digits 8 0 rest1
              else if Ascii.eqb (lower c1) "x" then digits 16 0 rest1
              else digits 8 0 rest0
          | _ => digits 8 0 rest0
          end
        else digits 10 0 s in
      if existsb (Ascii.eqb "_") s && negb (underscoreOK s) then None else value
  end.

Definition ParseIntOK (tok : string) : bool :=
  match list_ascii_of_string tok with
  | [] => false
  | c :: rest =>
      let neg := Ascii.eqb c "-" in
      let body := if Ascii.eqb c "+" || neg then rest else c :: rest in
      match parseUint body with
      | Some un => if neg then (un <=? 2 ^ 31)%Z else (un <? 2 ^ 31)%Z
      | None => false
      end
  end.

(** *** The token queue

    [Tokens] is declared in a file of the package that is not among the
    sources: it is a cursor over the list of tokens, with the methods that
    [validate] calls. *)

Record Tokens : Type := mkTokens { tokens : list string; curr : nat }.

Definition Get (tk : Tokens) : option string * Tokens :=
  match nth_error (tokens tk) (curr tk) with
  | Some tok => (Some tok, mkTokens (tokens tk) (S (curr tk)))
  | None => (None, tk)
  end.

Definition Peek (tk : Tokens) : option string := nth_error (tokens tk) (curr tk).

Definition Unget (tk : Tokens) : Tokens :=
  mkTokens (tokens tk) (Nat.pred (curr tk)).

Definition Remaining (tk : Tokens) : nat := (List.length (tokens tk) - curr tk)%nat.

Definition Remainder (tk : Tokens) : string :=
  String.concat " " (skipn (curr tk) (tokens tk)).

Fixpoint replace (l : list string) (i : nat) (s : string) : list string :=
  match l, i with
  | [], _ => []
  | _ :: rest, O => s :: rest
  | x :: rest, S j => x :: replace rest j s
  end.

Definition Update (tk : Tokens) (s : string) : Tokens :=
  match curr tk with
  | O => tk
  | S i => mkTokens (replace (tokens tk) i s) (curr tk)
  end.

(** [TokeniseInput]: the words of the input, separated by white space. *)
Definition isSpace (c : ascii) : bool :=
  Ascii.eqb c " " || Ascii.eqb c "009" || Ascii.eqb c "010" || Ascii.eqb c "013".

Fixpoint words (word : string) (s : string) : list string :=
  let flush := if String.eqb word "" then [] else [word] in
  match s with
  | EmptyString => flush
  | String c rest =>
      if isSpace c then (flush ++ words "" rest)%list
      else words (word ++ String c EmptyString) rest
  end.

Definition TokeniseInput (input : string) : Tokens := mkTokens (words "" input) 0.

(** *** The command templates

    A parsed template is a graph of nodes: [next], [branch] and [repeat]
    are pointers, here indices into the list of all nodes. *)

Inductive nodeType : Type := nodeRoot | nodeRequired | nodeOptional.

Record node : Type := mkNode {
  tag : string;
  typ : nodeType;
  next : list nat;
  branch : list nat;
  repeat : option nat
}.

Record Commands : Type := mkCommands {
  nodes : list node;
  cmds : list nat;
  helpCommand : string
}.

(** What a call does: it returns (with the queue as it left it and an error
    or [None] for nil), panics on a nil pointer or an index out of range, or
    has not returned within the steps allowed. *)
Inductive outcome : Type :=
| Returned (tk : Tokens) (err : option Errors.error)
| Panicked
| OutOfFuel.

Inductive branching : Type :=
| Matched (tk : Tokens)
| NoMatch (tk : Tokens)
| Aborted (o : outcome).

(** The loop over [n.branch]: the token is put back and the branch
    validated speculatively, up to the first that returns nil. *)
Fixpoint firstBranch (rec : nat -> Tokens -> bool -> outcome) (bs : list nat) (tk : Tokens)
  : branching :=
  match bs with
  | [] => NoMatch tk
  | b :: rest =>
      match rec b (Unget tk) true with
      | Returned tk1 None => Matched tk1
      | Returned tk1 (Some _) => firstBranch rec rest tk1
      | o => Aborted o
      end
  end.

(** The loop over [n.next], up to the first error. *)
Fixpoint allNext (rec : nat -> Tokens -> bool -> outcome) (ns : list nat) (tk : Tokens)
  : outcome :=
  match ns with
  | [] => Returned tk None
  | n :: rest =>
      match rec n tk false with
      | Returned tk1 None => allNext rec rest tk1
      | o => o
      end
  end.

Definition isNil {A : Type} (l : list A) : bool :=
  match l with [] => true | _ => false end.

(** The switch on [n.tag]: the token as normalised, the queue, [match] and
    [tentativeMatch].  [None]: the token is empty and [tok[0]] panics. *)
Definition classify (mapUpper : string -> string) (ParseFloatOK : string -> bool)
           (nd : node) (tok : string) (tk : Tokens)
  : option (string * Tokens * bool * bool) :=
  if String.eqb (tag nd) "%N" then
    match tok with
    | EmptyString => None
    | String c rest =>
        let tok := if Ascii.eqb c "$" then "0x" ++ rest else tok in
        Some (tok, Update tk tok, ParseIntOK tok, false)
    end
  else if String.eqb (tag nd) "%P" then
    Some (tok, tk, ParseFloatOK tok, false)
  else if String.eqb (tag nd) "%S" then
    Some (tok, tk, isNil (branch nd), true)
  else if String.eqb (tag nd) "%F" then
    Some (tok, tk, isNil (branch nd), true)
  else
    let tok := Fmt.ToUpper mapUpper tok in
    if String.eqb tok (tag nd) then Some (tok, Update tk tok, true, false)
    else Some (tok, tk, false, false).

Section Validation.

(** The Unicode mapping of [strings.ToUpper], [strconv.ParseFloat(tok, 32)]
    and [node.nodeVerbose] are parameters. *)
Variable mapUpper : string -> string.
Variable ParseFloatOK : string -> bool.
Variable nodeVerbose : node -> string.

(** [node.validate], on the node at index [n]; [fuel] bounds the depth of
    the calls. *)
Fixpoint validate (fuel : nat) (h : list node) (n : nat) (tk : Tokens) (speculative : bool)
  {struct fuel} : outcome :=
  match fuel with
  | O => OutOfFuel
  | S fuel =>
  match nth_error h n with
  | None => Panicked
  | Some nd =>
  if String.eqb (tag nd) "" then
    match next nd with
    | [n0] =>
        match validate fuel h n0 tk true with
        | Returned tk1 (Some err) =>
            match firstBranch (validate fuel h) (branch nd) tk1 with
            | Matched tk2 => Returned tk2 None
            | NoMatch tk2 => Returned tk2 (Some err)
            | Aborted o => o
            end
        | o => o
        end
    | _ => Returned tk (Some (Errors.New Errors.PanicError
                                ["commandline validation"; "illegal empty node"]))
    end
  else
    let remainder := Remainder tk in
    match Get tk with
    | (None, tk) =>
        match typ nd with
        | nodeOptional => Returned tk None
        | _ => Returned tk (Some (Errors.PlainError (nodeVerbose nd ++ " required")))
        end
    | (Some tok, tk) =>
    match classify mapUpper ParseFloatOK nd tok tk with
    | None => Panicked
    | Some (tok, tk, matched, tentativeMatch) =>
    let followers (tk : Tokens) : outcome :=
      match allNext (validate fuel h) (next nd) tk with
      | Returned tk1 None =>
          match repeat nd with
          | Some rp =>
              if negb (String.eqb remainder (Remainder tk1))
              then validate fuel h rp tk1 false
              else Returned tk1 None
          | None => Returned tk1 None
          end
      | o => o
      end in
    let decide (tk : Tokens) (matched : bool) : outcome :=
      if negb matched then
        let err := Errors.PlainError ("unrecognised argument (" ++ tok ++ ")") in
        if speculative then Returned tk (Some err)
        else match typ nd with
             | nodeOptional => followers (Unget tk)
             | _ => Returned tk (Some err)
             end
      else followers tk in
    if negb matched && negb (isNil (branch nd)) then
      match firstBranch (validate fuel h) (branch nd) tk with
      | Matched tk1 => Returned tk1 None
      | NoMatch tk1 => decide tk1 tentativeMatch
      | Aborted o => o
      end
    else decide tk matched
    end
    end
  end
  end.

(** The body of the loop of [ValidateTokens] for the command that matches. *)
Definition validateCommand (fuel : nat) (c : Commands) (n : nat) (cmd : string) (tk : Tokens)
  : outcome :=
  match validate fuel (nodes c) n tk false with
  | Returned tk1 (Some err) =>
      if Errors.isAtariError err then Returned tk1 (Some err)
      else Returned tk1 (Some (Errors.AtariError Errors.ValidationError [Errors.VError err]))
  | Returned tk1 None =>
      if (0 <? Remaining tk1)%nat then
        match Get tk1 with
        | (arg, tk2) =>
            let arg := match arg with Some a => a | None => "" end in
            if String.eqb cmd (helpCommand c) then
              Returned tk2 (Some (Errors.New Errors.ValidationError
                                    ["no help for " ++ Fmt.ToUpper mapUpper arg]))
            else
              Returned tk2 (Some (Errors.New Errors.ValidationError
                                    ["unrecognised argument (" ++ arg ++ ") for " ++ cmd]))
        end
      else Returned tk1 None
  | o => o
  end.

(** The loop of [ValidateTokens] over the commands. *)
Fixpoint findCommand (fuel : nat) (c : Commands) (roots : list nat) (cmd : string) (tk : Tokens)
  : outcome :=
  match roots with
  | [] => Returned tk (Some (Errors.PlainError ("unrecognised command (" ++ cmd ++ ")")))
  | n :: rest =>
      match nth_error (nodes c) n with
      | None => Panicked
      | Some nd =>
          if String.eqb cmd (tag nd) then validateCommand fuel c n cmd tk
          else findCommand fuel c rest cmd tk
      end
  end.

(** [Commands.ValidateTokens]. *)
Definition ValidateTokens (fuel : nat) (c : Commands) (tk : Tokens) : outcome :=
  match Peek tk with
  | None => Returned tk None
  | Some cmd => findCommand fuel c (cmds c) (Fmt.ToUpper mapUpper cmd) tk
  end.

(** [Commands.Validate]. *)
Definition Validate (fuel : nat) (c : Commands) (input : string) : outcome :=
  ValidateTokens fuel c (TokeniseInput input).

(** The error a call returned, when it returned. *)
Definition returnedError (o : outcome) : option (option Errors.error) :=
  match o with
  | Returned _ err => Some err
  | _ => None
  end.

End Validation.

(** The template [TEST (arg [%N]|foo)].  The parser of templates is not
    among the sources; this is the graph of the template as [validate] reads
    it: the command is the root; the round brackets make [ARG] optional,
    with [FOO], after the bar, as its branch; the square brackets make [%N],
    which follows [ARG], required.  Tags are in upper case. *)
Definition testTemplate : Commands :=
  mkCommands
    [ mkNode "TEST" nodeRoot [1%nat] [] None;
      mkNode "ARG" nodeOptional [2%nat] [3%nat] None;
      mkNode "%N" nodeRequired [] [] None;
      mkNode "FOO" nodeOptional [] [] None ]
    [0%nat] "HELP".

(** Parameters for the examples: no token is a float, and a node is
    described by its tag.  The inputs of the examples are ASCII, so the
    Unicode mapping is never consulted: it leaves a string as it is. *)
Definition noFloat (tok : string) : bool := false.

Definition noMapUpper (s : string) : string := s.

Definition tagOf (nd : node) : string := tag nd.

(** No command among [roots] has the tag [cmd]. *)
Definition unknownCommand (c : Commands) (roots : list nat) (cmd : string) : Prop :=
  Forall (fun n => exists nd, nth_error (nodes c) n = Some nd /\ tag nd <> cmd) roots.

End Commandline.

(** ** The television specifications and getColor *)

Module TelevisionSpec.

(** [Specification], as the file that declares the two specifications has
    it.  The two [float32] fields, [AspectBias] and [FramesPerSecond], which
    no function of the file reads, are left out. *)
Record Specification : Type := mkSpecification {
  ID : string;
  Colors : list Colors.RGB;
  ScanlinesVSync : Z;
  scanlinesVBlank : Z;
  ScanlinesVisible : Z;
  ScanlinesOverscan : Z;
  ScanlinesTotal : Z;
  ScanlineTop : Z;
  ScanlineBottom : Z
}.

(** The two assignments that [init] makes after it has built a
    specification. *)
Definition withLimits (s : Specification) : Specification :=
  mkSpecification (ID s) (Colors s) (ScanlinesVSync s) (scanlinesVBlank s)
                  (ScanlinesVisible s) (ScanlinesOverscan s) (ScanlinesTotal s)
                  (GoInt.int (scanlinesVBlank s + ScanlinesVSync s))
                  (GoInt.int (ScanlinesTotal s - ScanlinesOverscan s)).

(** The specifications after [init]. *)
Definition SpecNTSC : Specification :=
  withLimits (mkSpecification "NTSC" Colors.PaletteNTSC 3 37 192 30 262 0 0).

Definition SpecPAL : Specification :=
  withLimits (mkSpecification "PAL" Colors.PalettePAL 3 45 228 36 312 0 0).

Definition maxNTSCscanlines : Z := 276.

Section GetColor.

(** The colour signal [VideoBlack] and the colour [colors.VideoBlack] are
    declared in files that are not among the sources. *)
Variable VideoBlack : Z.
Variable black : Colors.RGB.

(** [Specification.getColor]; [None] is the panic of an index out of
    range. *)
Definition getColor (spec : Specification) (col : Z) : option Colors.RGB :=
  if col =? VideoBlack then Some black
  else if col <? 0 then None
  else nth_error (Colors spec) (Z.to_nat col).

End GetColor.

(** The four portions of the frame add up to its total. *)
Definition portionsAddUp (s : Specification) : Prop :=
  ScanlinesVSync s + scanlinesVBlank s + ScanlinesVisible s + ScanlinesOverscan s
  = ScanlinesTotal s.

End TelevisionSpec.

(** ** database/select.go *)

Module Database.

Section Select.

(** [Entry] is an interface of the package and [error] Go's; the identifier
    [DatabaseSelectEmpty] is of the errors package.  Neither declaration is
    among the sources.  [None] is Go's nil, for an entry and for an error. *)
Variable Entry : Type.
Variable error : Type.
Variable DatabaseSelectEmpty : error.

(** What the callback may change as it runs. *)
Variable State : Type.

(** The entries of a session, by key.  Indexing the map with a key that it
    does not have gives nil. *)
Record Session : Type := mkSession { entries : list (Z * Entry) }.

Definition lookup (db : Session) (key : Z) : option Entry :=
  option_map snd (find (fun p => fst p =? key) (entries db)).

(** [Session.SortedKeyList] is not among the sources. *)
Variable SortedKeyList : Session -> list Z.

Definition callback : Type := State -> option Entry -> State * (bool * option error).

(** The callback that stands in for a nil [onSelect]. *)
Definition always : callback := fun s _ => (s, (true, None)).

Definition orAlways (onSelect : option callback) : callback :=
  match onSelect with
  | Some f => f
  | None => always
  end.

(** The loop of [SelectAll].  The entry it reads is a variable of its own,
    declared in the body of the loop: the entry that the function returns
    after the loop is the one declared before it, which is never
    assigned. *)
Fixpoint selectAll (db : Session) (onSelect : callback) (keyList : list Z) (s : State)
  : State * (option Entry * option error) :=
  match keyList with
  | [] => (s, (None, None))
  | k :: rest =>
      let entry := lookup db k in
      match onSelect s entry with
      | (s1, (_, Some err)) => (s1, (entry, Some err))
      | (s1, (false, None)) => (s1, (None, None))
      | (s1, (true, None)) => selectAll db onSelect rest s1
      end
  end.

(** [Session.SelectAll]. *)
Definition SelectAll (db : Session) (onSelect : option callback) (s : State)
  : State * (option Entry * option error) :=
  selectAll db (orAlways onSelect) (SortedKeyList db) s.

(** The loop of [SelectKeys], which assigns the entry declared before it;
    an error in the result is the return from inside the loop. *)
Fixpoint selectKeys (db : Session) (onSelect : callback) (keyList : list Z)
         (entry : option Entry) (s : State)
  : State * (option Entry * option error) :=
  match keyList with
  | [] => (s, (entry, None))
  | k :: rest =>
      let entry := lookup db k in
      match onSelect s entry with
      | (s1, (_, Some err)) => (s1, (entry, Some err))
      | (s1, (false, None)) => (s1, (entry, None))
      | (s1, (true, None)) => selectKeys db onSelect rest entry s1
      end
  end.

(** [Session.SelectKeys]. *)
Definition SelectKeys (db : Session) (onSelect : option callback) (keys : list Z) (s : State)
  : State * (option Entry * option error) :=
  let keyList := match keys with [] => SortedKeyList db | _ => keys end in
  match selectKeys db (orAlways onSelect) keyList None s with
  | (s1, (entry, Some err)) => (s1, (entry, Some err))
  | (s1, (None, None)) => (s1, (None, Some DatabaseSelectEmpty))
  | (s1, (Some e, None)) => (s1, (Some e, None))
  end.

End Select.

(** A session for the examples, with the list of its keys. *)
Definition sampleSession : Session string := mkSession string [(1, "one"%string); (2, "two"%string)].

Definition sampleKeyList (db : Session string) : list Z := map fst (entries string db).

End Database.

(** * Theorems *)

Module GoIntFacts.

Import GoInt.

Lemma int_small (z : Z) : min_int <= z <= max_int -> int z = z.
Proof.
  unfold int, wrap_signed, min_int, max_int. intros H.
  rewrite Z.mod_small; lia.
Qed.

Lemma int_range (z : Z) : min_int <= int z <= max_int.
Proof.
  unfold int, wrap_signed, min_int, max_int.
  pose proof (Z.mod_pos_bound (z + 2 ^ (64 - 1)) (2 ^ 64) ltac:(lia)). lia.
Qed.

Lemma uint8_range (z : Z) : 0 <= uint8 z < 256.
Proof. unfold uint8. apply Z.mod_pos_bound. lia. Qed.

Lemma uint8_small (z : Z) : 0 <= z < 256 -> uint8 z = z.
Proof. unfold uint8. intros. apply Z.mod_small. lia. Qed.

End GoIntFacts.

(** ** The palettes *)

Module ColorsFacts.

Import Colors.

Lemma fold_appendTwice (raw : list Z) :
  forall acc, fold_left appendTwice raw acc = acc ++ flat_map twice raw.
Proof.
  induction raw as [|col raw IH]; intros acc; simpl.
  - now rewrite app_nil_r.
  - rewrite IH. unfold appendTwice. now rewrite <- !app_assoc.
Qed.

Lemma nth_error_twice (raw : list Z) :
  forall k,
    nth_error (flat_map twice raw) (2 * k) = option_map components (nth_error raw k)
    /\ nth_error (flat_map twice raw) (2 * k + 1) = option_map components (nth_error raw k).
Proof.
  induction raw as [|col raw IH]; intros k.
  - destruct k; simpl; split; reflexivity.
  - destruct k as [|k].
    + split; reflexivity.
    + replace (2 * S k)%nat with (S (S (2 * k))) by lia.
      replace (S (S (2 * k)) + 1)%nat with (S (S (2 * k + 1))) by lia.
      simpl flat_map. simpl nth_error. apply IH.
Qed.

Lemma length_twice (raw : list Z) :
  List.length (flat_map twice raw) = (2 * List.length raw)%nat.
Proof. induction raw as [|col raw IH]; simpl; [reflexivity | rewrite IH; lia]. Qed.

(** A palette built by the loop of [init] holds every raw colour twice, at
    the indices 2k and 2k+1. *)
Lemma built_palette_pairs (raw : list Z) (k : nat) :
  nth_error (fold_left appendTwice raw []) (2 * k) = option_map components (nth_error raw k)
  /\ nth_error (fold_left appendTwice raw []) (2 * k + 1)
     = option_map components (nth_error raw k).
Proof. rewrite fold_appendTwice. simpl. apply nth_error_twice. Qed.

(** C10.  In the NTSC and the PAL palette that [init] builds, the entries
    at the indices 2k and 2k+1 are both the components of the k-th raw
    colour: every raw colour is appended twice in consecutive positions, so
    the entry at an even index equals the entry that follows it, and both
    palettes have 256 entries. *)
Theorem palette_entries_come_in_pairs (k : nat) :
  (nth_error PaletteNTSC (2 * k) = option_map components (nth_error ntsc32bit k)
   /\ nth_error PaletteNTSC (2 * k + 1) = nth_error PaletteNTSC (2 * k))
  /\ (nth_error PalettePAL (2 * k) = option_map components (nth_error pal32bit k)
      /\ nth_error PalettePAL (2 * k + 1) = nth_error PalettePAL (2 * k))
  /\ List.length PaletteNTSC = 256%nat
  /\ List.length PalettePAL = 256%nat.
Proof.
  unfold PaletteNTSC, PalettePAL.
  destruct (built_palette_pairs ntsc32bit k) as [En On].
  destruct (built_palette_pairs pal32bit k) as [Ep Op].
  split; [split | split; [split | split]].
  - exact En.
  - now rewrite On, En.
  - exact Ep.
  - now rewrite Op, Ep.
  - rewrite fold_appendTwice, length_app, length_twice. reflexivity.
  - rewrite fold_appendTwice, length_app, length_twice. reflexivity.
Qed.

(** The index of a colour signal and the index with its lowest bit flipped
    name the same entry. *)
Lemma lowest_bit_is_ignored (raw : list Z) (i : nat) :
  nth_error (fold_left appendTwice raw []) i
  = nth_error (fold_left appendTwice raw []) (2 * (i / 2)).
Proof.
  destruct (built_palette_pairs raw (i / 2)) as [E O].
  destruct (Nat.Even_or_Odd i) as [[m ->]|[m ->]].
  - replace (2 * m / 2)%nat with m by (symmetry; rewrite Nat.mul_comm; apply Nat.div_mul; lia).
    reflexivity.
  - assert (Hd : ((2 * m + 1) / 2 = m)%nat).
    { rewrite Nat.mul_comm, Nat.add_comm.
      rewrite Nat.div_add by lia. reflexivity. }
    rewrite Hd in *. now rewrite O, E.
Qed.

Lemma palette_lengths :
  List.length PaletteNTSC = 256%nat /\ List.length PalettePAL = 256%nat.
Proof.
  unfold PaletteNTSC, PalettePAL.
  rewrite !fold_appendTwice, !length_app, !length_twice. split; reflexivity.
Qed.

(** *** The components of a colour *)

Lemma shifted_byte (col k : Z) :
  0 <= k ->
  Z.shiftr (Z.land col (Z.shiftl 255 k)) k = (col / 2 ^ k) mod 256.
Proof.
  intros Hk. rewrite Z.shiftr_land, Z.shiftr_shiftl_l by lia.
  rewrite Z.sub_diag, Z.shiftl_0_r.
  change 255 with (Z.ones 8). rewrite Z.land_ones by lia.
  rewrite Z.shiftr_div_pow2 by lia. reflexivity.
Qed.

(** X16.  [init] loses nothing of a raw colour: the three components that
    it takes of a value of 24 bits are bytes, and they give the value back,
    the red component weighing 65536 and the green one 256. *)
Theorem components_give_the_colour_back (col : Z) :
  0 <= col < 2 ^ 24 ->
  let c := components col in
  0 <= Red c < 256 /\ 0 <= Green c < 256 /\ 0 <= Blue c < 256
  /\ Red c * 65536 + Green c * 256 + Blue c = col.
Proof.
  intros Hc. cbv zeta. unfold components. simpl Red. simpl Green. simpl Blue.
  change 0xff0000 with (Z.shiftl 255 16). change 0xff00 with (Z.shiftl 255 8).
  rewrite !shifted_byte by lia.
  replace (Z.land col 0xff) with (col mod 256)
    by (change 0xff with (Z.ones 8); rewrite Z.land_ones by lia; reflexivity).
  unfold GoInt.uint8. rewrite !Z.mod_mod by lia.
  change (2 ^ 16) with 65536. change (2 ^ 8) with 256. change (2 ^ 24) with 16777216 in Hc.
  pose proof (Z.mod_pos_bound (col / 65536) 256 ltac:(lia)).
  pose proof (Z.mod_pos_bound (col / 256) 256 ltac:(lia)).
  pose proof (Z.mod_pos_bound col 256 ltac:(lia)).
  repeat (split; [lia|]).
  pose proof (Z.div_mod col 256 ltac:(lia)) as D1.
  pose proof (Z.div_mod (col / 256) 256 ltac:(lia)) as D2.
  assert (D3 : col / 256 / 256 = col / 65536) by (rewrite Z.div_div by lia; reflexivity).
  assert (D4 : (col / 65536) mod 256 = col / 65536).
  { apply Z.mod_small. split; [apply Z.div_pos; lia|].
    apply Z.div_lt_upper_bound; lia. }
  lia.
Qed.

Lemma components_give_the_colour_back_witness :
  let c := components 0x84c8fc in
  0 <= Red c < 256 /\ 0 <= Green c < 256 /\ 0 <= Blue c < 256
  /\ Red c * 65536 + Green c * 256 + Blue c = 0x84c8fc.
Proof.
  apply (components_give_the_colour_back 0x84c8fc). vm_compute.
  split; [discriminate|reflexivity].
Defined.

Lemma fold_appendOnce (raw : list Z) :
  forall acc, fold_left appendOnce raw acc = acc ++ map components raw.
Proof.
  induction raw as [|col raw IH]; intros acc; simpl.
  - now rewrite app_nil_r.
  - rewrite IH. unfold appendOnce. now rewrite <- app_assoc.
Qed.

(** X17.  The alternative palette holds every raw colour once, in the
    order of the table: unlike the NTSC and PAL palettes it is indexed by
    the colour itself, and it has seven entries. *)
Theorem alternative_palette_is_not_doubled (k : nat) :
  nth_error PaletteAlt k = option_map components (nth_error alt32bit k)
  /\ List.length PaletteAlt = 7%nat.
Proof.
  unfold PaletteAlt. rewrite fold_appendOnce.
  change ([] ++ map components alt32bit) with (map components alt32bit). split.
  - apply nth_error_map.
  - rewrite length_map. reflexivity.
Qed.

End ColorsFacts.

(** ** The register *)

Module RegisterFacts.

Import Register.

Lemma Load_reads_back (r : Register) (v : Z) :
  value (Load r v) = v mod 2 ^ Z.of_nat (size r).
Proof. reflexivity. Qed.

Lemma Add_is_modular (r : Register) (v : Z) (c : bool) :
  0 <= value (fst (Add r v c)) < 2 ^ Z.of_nat (size r).
Proof.
  unfold Add, modulus. simpl. apply Z.mod_pos_bound.
  apply Z.pow_pos_nonneg; lia.
Qed.

(** C9.  A register of sixteen bits made with the value 0, loaded with 127
    and then added 2 with no carry in, holds 129, prints as
    0000000010000001, and the addition returns no carry. *)
Theorem register_load_127_add_2 :
  let r16 := Generate 0 16 in
  let loaded := Load r16 127 in
  let added := Add loaded 2 false in
  value r16 = 0
  /\ value loaded = 127
  /\ value (fst added) = 129
  /\ ToBits (fst added) = "0000000010000001"%string
  /\ snd added = false.
Proof. vm_compute. repeat split; reflexivity. Qed.

End RegisterFacts.

(** ** Result.IsValid *)

Module ExecutionFacts.

Import Execution.

Lemma IsValid_not_final (result : Result) :
  Final result = false -> IsValid result <> None.
Proof. unfold IsValid. intros ->. discriminate. Qed.

(** In the case that [cyclesChecked] leaves out, every cycle count passes. *)
Lemma IsValid_ignores_cycles (result : Result) :
  Final result = true ->
  IsBranch (Defn result) = false ->
  PageSensitive (Defn result) = true ->
  PageFault result = false ->
  ByteCount result = Bytes (Defn result) ->
  IsValid result = None.
Proof.
  unfold IsValid. intros -> -> -> -> ->. rewrite Z.eqb_refl. simpl.
  destruct (String.eqb (CPUBug result) ""); reflexivity.
Qed.

Ltac eqb_cases :=
  repeat match goal with
         | |- context [Z.eqb ?a ?b] => destruct (Z.eqb_spec a b)
         | H : context [Z.eqb ?a ?b] |- _ => destruct (Z.eqb_spec a b)
         end.

(** C2, as the code has it.  For a finalised result whose cycle count
    [IsValid] looks at, [IsValid] returns no error exactly when there is no
    page fault on an instruction that is not page-sensitive, the byte count
    is the definition's and, unless a bug was flagged, the cycle count is
    the base count, or one more for a page-crossed page-sensitive
    instruction, or one or two more for a branch. *)
Theorem IsValid_iff_documented (result : Result) :
  Final result = true ->
  cyclesChecked result ->
  IsValid result = None <-> (~ unexpectedPageFault result /\ validAsDocumented result).
Proof.
  intros HF HC.
  unfold IsValid, unexpectedPageFault, validAsDocumented, cyclesAsDocumented, cyclesChecked in *.
  rewrite HF. simpl negb. cbv iota.
  destruct (String.eqb_spec (CPUBug result) "") as [Hb|Hb];
    destruct (PageSensitive (Defn result)) eqn:PS;
    destruct (PageFault result) eqn:PF;
    destruct (IsBranch (Defn result)) eqn:BR;
    simpl; unfold invalid;
    eqb_cases; simpl;
    split; intros H; try discriminate; try reflexivity;
    try (exfalso; intuition congruence);
    try (intuition (try congruence)).
Qed.

Lemma IsValid_iff_documented_witness :
  Final crossedLoad = true
  /\ cyclesChecked crossedLoad
  /\ (IsValid crossedLoad = None
      <-> (~ unexpectedPageFault crossedLoad /\ validAsDocumented crossedLoad)).
Proof.
  assert (HF : Final crossedLoad = true) by reflexivity.
  assert (HC : cyclesChecked crossedLoad) by (right; right; left; reflexivity).
  split; [exact HF | split; [exact HC | exact (IsValid_iff_documented crossedLoad HF HC)]].
Defined.

(** C2 as stated fails in both directions: the first result is as
    documented and is refused, the second is not and is accepted. *)
Lemma IsValid_not_as_documented :
  ~ (IsValid faultedNop = None <-> validAsDocumented faultedNop)
  /\ ~ (IsValid slowLoad = None <-> validAsDocumented slowLoad).
Proof.
  split.
  - intros [_ H].
    assert (Hv : validAsDocumented faultedNop).
    { split; [reflexivity | right; reflexivity]. }
    specialize (H Hv). vm_compute in H. discriminate.
  - intros [H _].
    assert (Hv : IsValid slowLoad = None) by reflexivity.
    destruct (H Hv) as [_ [Hbug | Hc]].
    + apply Hbug. reflexivity.
    + vm_compute in Hc. discriminate.
Qed.

(** X21.  A finalised result that read the bytes and took the cycles of its
    definition is never refused, whatever the kind of the instruction and
    whether a bug was flagged, as long as it reports no page fault on an
    instruction that is not page-sensitive. *)
Theorem IsValid_accepts_the_definition (result : Result) :
  Final result = true ->
  (PageFault result = true -> PageSensitive (Defn result) = true) ->
  ByteCount result = Bytes (Defn result) ->
  ActualCycles result = Cycles (Defn result) ->
  IsValid result = None.
Proof.
  unfold IsValid. intros -> Hpf -> ->. rewrite !Z.eqb_refl. simpl.
  destruct (PageSensitive (Defn result)); destruct (PageFault result);
    simpl; try (specialize (Hpf eq_refl); discriminate);
    destruct (String.eqb (CPUBug result) ""); destruct (IsBranch (Defn result));
    reflexivity.
Qed.

Lemma IsValid_accepts_the_definition_witness :
  IsValid (mkResult (mkDefinition 0xbd "LDA" 3 4 true Read false) 3 4 true "" true) = None.
Proof.
  apply IsValid_accepts_the_definition; reflexivity.
Defined.

(** X22.  Every error of [IsValid] is an error of the errors package with
    the identifier [InvalidResult] and one message: a caller can tell a
    refused result from any other failure by the identifier alone. *)
Theorem IsValid_errors_are_InvalidResult (result : Result) (err : Errors.error) :
  IsValid result = Some err ->
  exists msg, err = Errors.AtariError Errors.InvalidResult [Errors.VString msg].
Proof.
  unfold IsValid, invalid, Errors.New. intros H.
  repeat match type of H with
         | (if ?b then _ else _) = _ => destruct b
         end;
    first [discriminate | injection H as <-; eexists; reflexivity].
Qed.

Lemma IsValid_errors_are_InvalidResult_witness :
  exists msg, Errors.New Errors.InvalidResult ["unexpected page fault"]
              = Errors.AtariError Errors.InvalidResult [Errors.VString msg].
Proof.
  apply (IsValid_errors_are_InvalidResult faultedNop). reflexivity.
Defined.


End ExecutionFacts.

(** ** VCSMemory.Read and VCSMemory.Write *)

Module MemoryFacts.

Import Memory.

Lemma testbit_0xff (i : Z) : 0 <= i < 8 -> Z.testbit 0xff i = true.
Proof.
  intros H.
  assert (C : i = 0 \/ i = 1 \/ i = 2 \/ i = 3 \/ i = 4 \/ i = 5 \/ i = 6 \/ i = 7) by lia.
  repeat (destruct C as [-> | C]; [reflexivity | ]). now subst.
Qed.

(** Bit by bit, a masked byte is the chip's where the mask is set and the
    floating value's where it is clear. *)
Lemma masked_bits (data mask floating i : Z) :
  0 <= i < 8 ->
  Z.testbit (masked data mask floating) i
  = if Z.testbit mask i then Z.testbit data i else Z.testbit floating i.
Proof.
  intros H. unfold masked.
  rewrite Z.lor_spec, !Z.land_spec, Z.lxor_spec, (testbit_0xff i H).
  destruct (Z.testbit mask i), (Z.testbit data i), (Z.testbit floating i); reflexivity.
Qed.

Section BusFacts.

Variable Chips : Type.
Variable MapAddress : Z -> bool -> Z * Area.
Variable DataMasks : list Z.
Variable areaRead : Area -> Z -> Chips -> (Z * option Errors.error) * Chips.
Variable areaWrite : Area -> Z -> Z -> Chips -> option Errors.error * Chips.
Variable Listen : Z -> Z -> Chips -> option Errors.error * Chips.

Let read := Read Chips MapAddress DataMasks areaRead.
Let write := Write Chips MapAddress areaWrite Listen.

Lemma applyDataMask_entry (address ma data mask : Z) :
  0 <= ma ->
  Z.of_nat (List.length DataMasks) < 65536 ->
  nth_error DataMasks (Z.to_nat ma) = Some mask ->
  applyDataMask DataMasks address ma data
  = masked data mask (if address >? 0xff then highByte address else lowByte address).
Proof.
  intros Hma Hlen Hnth. unfold applyDataMask, GoInt.uint16.
  rewrite Z.mod_small by lia.
  assert (Hlt : (Z.to_nat ma < List.length DataMasks)%nat).
  { apply nth_error_Some. congruence. }
  destruct (Z.ltb_spec ma (Z.of_nat (List.length DataMasks))) as [_|Hge]; [|lia].
  rewrite (nth_error_nth _ _ 0 Hnth).
  destruct (address >? 0xff); reflexivity.
Qed.

Lemma applyDataMask_no_entry (address ma data : Z) :
  0 <= ma ->
  Z.of_nat (List.length DataMasks) < 65536 ->
  nth_error DataMasks (Z.to_nat ma) = None ->
  applyDataMask DataMasks address ma data = data.
Proof.
  intros Hma Hlen Hnth. unfold applyDataMask, GoInt.uint16.
  rewrite Z.mod_small by lia.
  apply nth_error_None in Hnth.
  destruct (Z.ltb_spec ma (Z.of_nat (List.length DataMasks))) as [Hlt|_]; [lia|reflexivity].
Qed.

(** C3, as the code has it.  A read of an address that maps to [ma] in one
    of the four areas returns the error of the chip and, when [ma] has an
    entry in the table of masks, the chip's data on the bits set in the mask
    and, on the bits that are clear, the bits of the high byte of the bus
    address when the address is above 0xff and of its low byte otherwise;
    when [ma] has no entry, the chip's data unchanged. *)
Theorem Read_open_bus (mem : VCSMemory Chips) (address ma data : Z) (ar area : Area)
        (err : option Errors.error) (c1 : Chips) :
  MapAddress address true = (ma, ar) ->
  GetArea ar = inl area ->
  areaRead area ma (chips mem) = ((data, err), c1) ->
  0 <= ma ->
  Z.of_nat (List.length DataMasks) < 65536 ->
  snd (fst (read mem address)) = err
  /\ match nth_error DataMasks (Z.to_nat ma) with
     | Some mask =>
         forall i, 0 <= i < 8 ->
           Z.testbit (fst (fst (read mem address))) i
           = if Z.testbit mask i then Z.testbit data i
             else Z.testbit (if address >? 0xff then highByte address
                             else lowByte address) i
     | None => fst (fst (read mem address)) = data
     end.
Proof.
  intros Hmap Harea Hread Hma Hlen. subst read. unfold Read.
  rewrite Hmap, Harea, Hread. simpl. split; [reflexivity|].
  destruct (nth_error DataMasks (Z.to_nat ma)) as [mask|] eqn:Hnth.
  - intros i Hi. rewrite (applyDataMask_entry address ma data mask Hma Hlen Hnth).
    apply masked_bits. exact Hi.
  - apply applyDataMask_no_entry; assumption.
Qed.

(** A read records the access. *)
Lemma Read_records_access (mem : VCSMemory Chips) (address ma : Z) (ar area : Area) :
  MapAddress address true = (ma, ar) ->
  GetArea ar = inl area ->
  let mem1 := snd (read mem address) in
  LastAccessAddress mem1 = ma
  /\ LastAccessWrite mem1 = false
  /\ LastAccessValue mem1 = fst (fst (read mem address))
  /\ LastAccessID mem1 = accessCount mem.
Proof.
  intros Hmap Harea. subst read. unfold Read. rewrite Hmap, Harea.
  destruct (areaRead area ma (chips mem)) as [[data err] c1]. simpl.
  repeat split.
Qed.


(** An error of [Listen] that is no [AtariError] is returned, and the area
    is not written. *)
Lemma Write_listen_fails (mem : VCSMemory Chips) (address data ma : Z)
      (ar area : Area) (e : Errors.error) (c1 : Chips) :
  MapAddress address false = (ma, ar) ->
  GetArea ar = inl area ->
  Listen address data (chips mem) = (Some e, c1) ->
  Errors.isAtariError e = false ->
  write mem address data
  = (Some e, mkVCSMemory c1 ma data true (accessCount mem)
                         (GoInt.int (accessCount mem + 1))).
Proof.
  intros Hmap Harea Hlisten He. subst write. unfold Write.
  rewrite Hmap, Harea, Hlisten.
  destruct (areaWrite area ma data c1). rewrite He. reflexivity.
Qed.

End BusFacts.

(** [Read_open_bus] at a read of the bus address 0x0130 (a mirror of the
    first TIA read register) of the sample memory. *)
Lemma Read_open_bus_witness :
  let read := Read sampleChips sampleMapAddress sampleDataMasks sampleRead in
  snd (fst (read sampleMemory 0x0130)) = None
  /\ match nth_error sampleDataMasks (Z.to_nat 0) with
     | Some mask =>
         forall i, 0 <= i < 8 ->
           Z.testbit (fst (fst (read sampleMemory 0x0130))) i
           = if Z.testbit mask i then Z.testbit 0 i
             else Z.testbit (if 0x0130 >? 0xff then highByte 0x0130
                             else lowByte 0x0130) i
     | None => fst (fst (read sampleMemory 0x0130)) = 0
     end.
Proof.
  apply (Read_open_bus sampleChips sampleMapAddress sampleDataMasks sampleRead
           sampleMemory 0x0130 0 0 TIA TIA None (fun _ => 0)).
  - reflexivity.
  - reflexivity.
  - reflexivity.
  - lia.
  - simpl. lia.
Defined.

(** C3 as stated fails below 0x0100: a read of the bus address 0x30 returns
    0x30 on the bits that the mask 0xc0 leaves floating, which are bits of
    the low byte of the address; its high byte is zero. *)
Lemma Read_floats_low_byte :
  let v := fst (fst (Read sampleChips sampleMapAddress sampleDataMasks sampleRead
                          sampleMemory 0x30)) in
  sampleMapAddress 0x30 true = (0, TIA)
  /\ nth_error sampleDataMasks 0 = Some 0xc0
  /\ v = 0x30
  /\ ~ openBusAsDocumented 0 0xc0 0x30 v.
Proof.
  split; [reflexivity | split; [reflexivity | split; [reflexivity | ]]].
  intros H. specialize (H 4 ltac:(lia)). vm_compute in H. discriminate.
Qed.



(** *** The record of the last access *)

Lemma NoDup_map_injective {A B : Type} (f : A -> B) (l : list A) :
  (forall x y, f x = f y -> x = y) -> NoDup l -> NoDup (map f l).
Proof.
  intros Hinj. induction 1 as [|x l Hx _ IH]; simpl; constructor; [|exact IH].
  intros Hin. apply in_map_iff in Hin. destruct Hin as (y & Hy & Hl).
  apply Hinj in Hy. subst y. contradiction.
Qed.

Section AccessFacts.

Variable Chips : Type.
Variable MapAddress : Z -> bool -> Z * Area.
Variable DataMasks : list Z.
Variable areaRead : Area -> Z -> Chips -> (Z * option Errors.error) * Chips.
Variable areaWrite : Area -> Z -> Z -> Chips -> option Errors.error * Chips.
Variable Listen : Z -> Z -> Chips -> option Errors.error * Chips.

Let read := Read Chips MapAddress DataMasks areaRead.
Let write := Write Chips MapAddress areaWrite Listen.
Let access := access Chips MapAddress DataMasks areaRead areaWrite Listen.
Let accessIDs := accessIDs Chips MapAddress DataMasks areaRead areaWrite Listen.

(** X8.  A write to an address that maps into one of the four areas is
    recorded as the last access, with the mapped address, the data and the
    count of accesses so far as its identifier, and counted, whatever the
    cartridge's [Listen] and the area answer: also when [Write] returns an
    error. *)
Theorem Write_records_access (mem : VCSMemory Chips) (address data ma : Z) (ar area : Area) :
  MapAddress address false = (ma, ar) ->
  GetArea ar = inl area ->
  let mem1 := snd (write mem address data) in
  LastAccessAddress mem1 = ma
  /\ LastAccessWrite mem1 = true
  /\ LastAccessValue mem1 = data
  /\ LastAccessID mem1 = accessCount mem
  /\ accessCount mem1 = GoInt.int (accessCount mem + 1).
Proof.
  intros Hmap Harea. subst write. unfold Write. rewrite Hmap, Harea.
  destruct (Listen address data (chips mem)) as [lerr c1].
  destruct (areaWrite area ma data c1) as [werr c2].
  destruct lerr as [e|]; [destruct (Errors.isAtariError e)|]; simpl; repeat split.
Qed.

(** X9.  An access whose address maps into none of the four areas changes
    nothing: a read returns 0 and the memory error of [GetArea], a write
    returns that error, the memory is as it was (the access is neither
    recorded nor counted) and the cartridge's [Listen] is not called. *)
Theorem unmapped_access_changes_nothing (mem : VCSMemory Chips) (address data : Z) :
  snd (MapAddress address true) = Unmapped ->
  snd (MapAddress address false) = Unmapped ->
  read mem address
  = ((0, Some (Errors.New Errors.MemoryError ["area not mapped correctly"%string])), mem)
  /\ write mem address data
     = (Some (Errors.New Errors.MemoryError ["area not mapped correctly"%string]), mem).
Proof.
  subst read write. unfold Read, Write. intros Hr Hw.
  destruct (MapAddress address true) as [ma ar]. simpl in Hr. subst ar.
  destruct (MapAddress address false) as [ma1 ar]. simpl in Hw. subst ar.
  split; reflexivity.
Qed.

Lemma access_counts (mem : VCSMemory Chips) (a : Access) :
  mapped MapAddress a ->
  LastAccessID (access mem a) = accessCount mem
  /\ accessCount (access mem a) = GoInt.int (accessCount mem + 1).
Proof.
  subst access. destruct a as [address|address data]; simpl; intros [area Harea].
  - unfold Read. destruct (MapAddress address true) as [ma ar]. simpl in Harea.
    rewrite Harea. destruct (areaRead area ma (chips mem)) as [[d e] c1]. simpl. auto.
  - unfold Write. destruct (MapAddress address false) as [ma ar]. simpl in Harea.
    rewrite Harea.
    destruct (Listen address data (chips mem)) as [lerr c1].
    destruct (areaWrite area ma data c1) as [werr c2].
    destruct lerr as [e|]; [destruct (Errors.isAtariError e)|]; simpl; auto.
Qed.

(** X10.  The identifiers of the accesses are the count of accesses so
    far: a sequence of reads and writes whose addresses map into the four
    areas leaves, one after the other, the identifiers c, c+1, c+2, ...
    where c is the count before the first (as long as the count does not
    overflow), so no two accesses of the sequence have the same
    identifier. *)
Theorem accessIDs_are_consecutive (accesses : list Access) :
  forall mem,
    Forall (mapped MapAddress) accesses ->
    GoInt.min_int <= accessCount mem ->
    accessCount mem + Z.of_nat (List.length accesses) <= GoInt.max_int ->
    accessIDs mem accesses
    = map (fun i => accessCount mem + Z.of_nat i) (seq 0 (List.length accesses))
    /\ NoDup (accessIDs mem accesses).
Proof.
  subst accessIDs.
  assert (Hids : forall mem,
             Forall (mapped MapAddress) accesses ->
             GoInt.min_int <= accessCount mem ->
             accessCount mem + Z.of_nat (List.length accesses) <= GoInt.max_int ->
             Memory.accessIDs Chips MapAddress DataMasks areaRead areaWrite Listen mem accesses
             = map (fun i => accessCount mem + Z.of_nat i) (seq 0 (List.length accesses))).
  { induction accesses as [|a rest IH]; intros mem Hm Hmin Hmax; [reflexivity|].
    inversion Hm as [|? ? Ha Hrest]; subst.
    destruct (access_counts mem a Ha) as [Hid Hc]. subst access.
    change (List.length (a :: rest)) with (S (List.length rest)) in *.
    rewrite GoIntFacts.int_small in Hc by (unfold GoInt.min_int, GoInt.max_int in *; lia).
    simpl. rewrite Hid, Z.add_0_r. f_equal.
    rewrite IH; [|exact Hrest|rewrite Hc; lia|rewrite Hc; lia].
    rewrite <- seq_shift, map_map. apply map_ext. intros i. rewrite Hc. lia. }
  intros mem Hm Hmin Hmax. split; [apply Hids; assumption|].
  rewrite Hids by assumption.
  apply NoDup_map_injective; [|apply seq_NoDup].
  intros i j Hij. lia.
Qed.

End AccessFacts.

(** *** The extremes of the mask *)

Lemma byte_bits_high (v i : Z) : 0 <= v < 256 -> 8 <= i -> Z.testbit v i = false.
Proof.
  intros Hv Hi. rewrite <- (Z.mod_small v (2 ^ 8)) by lia.
  apply Z.mod_pow2_bits_high. lia.
Qed.

Lemma byte_eq_bits (a b : Z) :
  0 <= a < 256 -> 0 <= b < 256 ->
  (forall i, 0 <= i < 8 -> Z.testbit a i = Z.testbit b i) -> a = b.
Proof.
  intros Ha Hb H. apply Z.bits_inj'. intros i Hi.
  destruct (Z.lt_ge_cases i 8) as [Hlt|Hge].
  - apply H. lia.
  - rewrite (byte_bits_high a i Ha Hge), (byte_bits_high b i Hb Hge). reflexivity.
Qed.

Lemma masked_is_byte (data mask floating : Z) :
  0 <= data < 256 -> 0 <= floating < 256 -> 0 <= masked data mask floating < 256.
Proof.
  intros Hd Hf. unfold masked.
  set (v := Z.lor (Z.land data mask) (Z.land floating (Z.lxor mask 0xff))).
  assert (Hn : 0 <= v).
  { apply Z.lor_nonneg. split; apply Z.land_nonneg; lia. }
  split; [exact Hn|].
  destruct (Z.eq_dec v 0) as [Hz|Hnz]; [lia|].
  change 256 with (2 ^ 8). apply Z.log2_lt_pow2; [lia|].
  destruct (Z.lt_ge_cases (Z.log2 v) 8) as [Hlt|Hge]; [exact Hlt|exfalso].
  assert (Hbit : Z.testbit v (Z.log2 v) = true) by (apply Z.bit_log2; lia).
  subst v. rewrite Z.lor_spec, !Z.land_spec in Hbit.
  rewrite (byte_bits_high data _ Hd Hge), (byte_bits_high floating _ Hf Hge) in Hbit.
  discriminate.
Qed.

Lemma highByte_is_byte (address : Z) : 0 <= highByte address < 256.
Proof. unfold highByte. apply GoIntFacts.uint8_range. Qed.

Lemma lowByte_is_byte (address : Z) : 0 <= lowByte address < 256.
Proof. unfold lowByte. apply GoIntFacts.uint8_range. Qed.

(** X11.  What a read returns is a byte when the chip's data is, and at
    the two extremes of the mask it is all the chip's or all the bus's: an
    entry 0xff returns the chip's data as it is, an entry 0 returns the byte
    that floats on the bus (the high byte of an address above 0xff, the low
    byte of another). *)
Theorem applyDataMask_extremes (DataMasks : list Z) (address ma data mask : Z) :
  0 <= ma ->
  Z.of_nat (List.length DataMasks) < 65536 ->
  nth_error DataMasks (Z.to_nat ma) = Some mask ->
  0 <= data < 256 ->
  0 <= applyDataMask DataMasks address ma data < 256
  /\ (mask = 0xff -> applyDataMask DataMasks address ma data = data)
  /\ (mask = 0 ->
      applyDataMask DataMasks address ma data
      = if address >? 0xff then highByte address else lowByte address).
Proof.
  intros Hma Hlen Hnth Hd.
  rewrite (applyDataMask_entry DataMasks address ma data mask Hma Hlen Hnth).
  set (floating := if address >? 0xff then highByte address else lowByte address).
  assert (Hf : 0 <= floating < 256).
  { subst floating. destruct (address >? 0xff);
      [apply highByte_is_byte|apply lowByte_is_byte]. }
  pose proof (masked_is_byte data mask floating Hd Hf) as Hb.
  split; [exact Hb|]. split; intros ->.
  - apply byte_eq_bits; [apply masked_is_byte; assumption|exact Hd|].
    intros i Hi. rewrite (masked_bits data 0xff floating i Hi), (testbit_0xff i Hi).
    reflexivity.
  - apply byte_eq_bits; [apply masked_is_byte; assumption|exact Hf|].
    intros i Hi. rewrite (masked_bits data 0 floating i Hi), Z.bits_0. reflexivity.
Qed.

(** *** The theorems above on the sample memory *)

Lemma Write_records_access_witness :
  let mem1 := snd (Write sampleChips sampleMapAddress sampleWrite sampleListen
                         sampleMemory 0x1000 0x55) in
  LastAccessAddress mem1 = 0
  /\ LastAccessWrite mem1 = true
  /\ LastAccessValue mem1 = 0x55
  /\ LastAccessID mem1 = accessCount sampleMemory
  /\ accessCount mem1 = GoInt.int (accessCount sampleMemory + 1).
Proof.
  apply (Write_records_access sampleChips sampleMapAddress sampleWrite sampleListen
           sampleMemory 0x1000 0x55 0 Cartridge Cartridge).
  - reflexivity.
  - reflexivity.
Defined.

Lemma unmapped_access_changes_nothing_witness :
  Read sampleChips noMapAddress sampleDataMasks sampleRead sampleMemory 0x30
  = ((0, Some (Errors.New Errors.MemoryError ["area not mapped correctly"%string])),
     sampleMemory)
  /\ Write sampleChips noMapAddress sampleWrite sampleListen sampleMemory 0x30 0x55
     = (Some (Errors.New Errors.MemoryError ["area not mapped correctly"%string]),
        sampleMemory).
Proof.
  apply (unmapped_access_changes_nothing sampleChips noMapAddress sampleDataMasks
           sampleRead sampleWrite sampleListen sampleMemory 0x30 0x55).
  - reflexivity.
  - reflexivity.
Defined.

Lemma accessIDs_are_consecutive_witness :
  accessIDs sampleChips sampleMapAddress sampleDataMasks sampleRead sampleWrite sampleListen
            sampleMemory [ReadAt 0x30; WriteAt 0x1000 0x55; ReadAt 0x80]
  = map (fun i => accessCount sampleMemory + Z.of_nat i) (seq 0 3)
  /\ NoDup (accessIDs sampleChips sampleMapAddress sampleDataMasks sampleRead sampleWrite
                      sampleListen sampleMemory
                      [ReadAt 0x30; WriteAt 0x1000 0x55; ReadAt 0x80]).
Proof.
  apply (accessIDs_are_consecutive sampleChips sampleMapAddress sampleDataMasks sampleRead
           sampleWrite sampleListen [ReadAt 0x30; WriteAt 0x1000 0x55; ReadAt 0x80]
           sampleMemory).
  - repeat constructor; simpl; eexists; reflexivity.
  - vm_compute. discriminate.
  - vm_compute. discriminate.
Defined.

Lemma applyDataMask_extremes_witness :
  0 <= applyDataMask [0xff; 0] 0x0130 0 0x80 < 256
  /\ (0xff = 0xff -> applyDataMask [0xff; 0] 0x0130 0 0x80 = 0x80)
  /\ (0xff = 0 ->
      applyDataMask [0xff; 0] 0x0130 0 0x80
      = if 0x0130 >? 0xff then highByte 0x0130 else lowByte 0x0130).
Proof.
  apply (applyDataMask_extremes [0xff; 0] 0x0130 0 0x80 0xff).
  - lia.
  - simpl. lia.
  - reflexivity.
  - lia.
Defined.

End MemoryFacts.

(** ** The sprite and HMOVE *)

Module VideoFacts.

Import Video.

Lemma prepareForHMOVE_adds_eight (sp : sprite) :
  currentPixel (prepareForHMOVE sp) = GoInt.int (currentPixel sp + 8).
Proof. reflexivity. Qed.

(** The decrement of an HMOVE tick: one less, and from 0 to 159. *)
Lemma adjustPosition_decrements (sp : sprite) :
  visiblePixel (currentPixel sp) ->
  currentPixel (adjustPosition sp)
  = if currentPixel sp =? 0 then 159 else currentPixel sp - 1.
Proof.
  unfold visiblePixel, adjustPosition. intros H. simpl.
  rewrite GoIntFacts.int_small by (unfold GoInt.min_int, GoInt.max_int; lia).
  destruct (Z.ltb_spec (currentPixel sp - 1) 0), (Z.eqb_spec (currentPixel sp) 0);
    simpl; lia.
Qed.

Lemma adjustPosition_visible (sp : sprite) :
  visiblePixel (currentPixel sp) -> visiblePixel (currentPixel (adjustPosition sp)).
Proof.
  intros H. rewrite (adjustPosition_decrements sp H). unfold visiblePixel in *.
  destruct (Z.eqb_spec (currentPixel sp) 0); lia.
Qed.

Section TickingFacts.

Variable spriteTick : sprite -> sprite.
Variable Force : sprite -> sprite.
Variable ForceReset : Z.

(** The tick of the owner and the forced reset leave the sprite at a
    visible pixel. *)
Hypothesis spriteTick_visible :
  forall sp, visiblePixel (currentPixel sp) -> visiblePixel (currentPixel (spriteTick sp)).
Hypothesis Force_visible :
  forall sp, visiblePixel (currentPixel sp) -> visiblePixel (currentPixel (Force sp)).

Lemma resolveForceReset_visible (sp : sprite) :
  visiblePixel (currentPixel sp) ->
  visiblePixel (currentPixel (resolveForceReset Force ForceReset sp)).
Proof.
  intros H. unfold resolveForceReset.
  destruct (resetFuture sp); [|exact H].
  destruct (forceReset sp =? 1); [simpl; apply Force_visible; exact H|].
  destruct (forceReset sp =? 0); exact H.
Qed.

(** The ticks of [resolveHMOVE] keep a sprite inside the visible pixels. *)
Lemma resolveHMOVE_visible (sp : sprite) (count : Z) :
  visiblePixel (currentPixel sp) ->
  visiblePixel (currentPixel (resolveHMOVE spriteTick Force ForceReset sp count)).
Proof.
  intros H. unfold resolveHMOVE.
  set (sp1 := set_moreMovementRequired sp _).
  destruct (moreMovementRequired sp1); [|exact H].
  apply spriteTick_visible, adjustPosition_visible, resolveForceReset_visible. exact H.
Qed.

Lemma forceHMOVE_visible (sp : sprite) (adjustment : Z) :
  visiblePixel (currentPixel sp) ->
  visiblePixel (currentPixel (forceHMOVE spriteTick sp adjustment)).
Proof.
  intros H. unfold forceHMOVE.
  induction (Z.to_nat _) as [|n IH]; simpl; [exact H|].
  apply spriteTick_visible, adjustPosition_visible, IH.
Qed.

End TickingFacts.

(** C7 at a sprite at pixel 155: [prepareForHMOVE] leaves it at 163, outside
    the visible pixels; there is no wrap on the way up as there is on the
    way down. *)
Theorem prepareForHMOVE_leaves_visible_pixels :
  visiblePixel (currentPixel (spriteAt 155))
  /\ currentPixel (prepareForHMOVE (spriteAt 155)) = 163
  /\ ~ visiblePixel (currentPixel (prepareForHMOVE (spriteAt 155))).
Proof.
  split; [unfold visiblePixel; simpl; lia|].
  split; [reflexivity|].
  unfold visiblePixel. vm_compute. intros [_ H]. apply H. reflexivity.
Qed.

(** *** compareBits *)

Lemma land_pow2 (a i : Z) :
  0 <= i -> Z.land a (2 ^ i) = if Z.testbit a i then 2 ^ i else 0.
Proof.
  intros Hi. apply Z.bits_inj'. intros n Hn.
  rewrite Z.land_spec, Z.pow2_bits_eqb by lia.
  destruct (Z.eqb_spec i n) as [->|Hne].
  - destruct (Z.testbit a n); [|now rewrite Z.bits_0].
    rewrite Z.pow2_bits_true by lia. reflexivity.
  - rewrite andb_false_r. destruct (Z.testbit a i); [|now rewrite Z.bits_0].
    rewrite Z.pow2_bits_false by lia. reflexivity.
Qed.

Lemma same_bit (a b i : Z) :
  0 <= i ->
  (Z.land a (2 ^ i) =? Z.land b (2 ^ i)) = Bool.eqb (Z.testbit a i) (Z.testbit b i).
Proof.
  intros Hi. rewrite !land_pow2 by lia.
  assert (Hp : 0 < 2 ^ i) by (apply Z.pow_pos_nonneg; lia).
  destruct (Z.testbit a i), (Z.testbit b i); cbv [Bool.eqb];
    [apply Z.eqb_refl | apply Z.eqb_neq; lia | apply Z.eqb_neq; lia | reflexivity].
Qed.

(** X12.  [compareBits] holds of two bytes exactly when they agree on one
    of their four low bits at least, bit for bit; so it fails only when each
    nibble is the complement of the other, and it does not depend on the
    order of the two. *)
Theorem compareBits_same_bit (a b : Z) :
  (compareBits a b = true
   <-> exists i, 0 <= i < 4 /\ Z.testbit a i = Z.testbit b i)
  /\ compareBits a b = compareBits b a.
Proof.
  unfold compareBits.
  rewrite (same_bit a b 3 ltac:(lia) : (Z.land a 0x08 =? Z.land b 0x08) = _).
  rewrite (same_bit a b 2 ltac:(lia) : (Z.land a 0x04 =? Z.land b 0x04) = _).
  rewrite (same_bit a b 1 ltac:(lia) : (Z.land a 0x02 =? Z.land b 0x02) = _).
  rewrite (same_bit a b 0 ltac:(lia) : (Z.land a 0x01 =? Z.land b 0x01) = _).
  rewrite (same_bit b a 3 ltac:(lia) : (Z.land b 0x08 =? Z.land a 0x08) = _).
  rewrite (same_bit b a 2 ltac:(lia) : (Z.land b 0x04 =? Z.land a 0x04) = _).
  rewrite (same_bit b a 1 ltac:(lia) : (Z.land b 0x02 =? Z.land a 0x02) = _).
  rewrite (same_bit b a 0 ltac:(lia) : (Z.land b 0x01 =? Z.land a 0x01) = _).
  split.
  - split.
    + intros H. apply orb_true_iff in H. destruct H as [H|H].
      * apply orb_true_iff in H. destruct H as [H|H].
        -- apply orb_true_iff in H. destruct H as [H|H];
             apply Bool.eqb_prop in H; [exists 3|exists 2]; split; (lia || exact H).
        -- apply Bool.eqb_prop in H. exists 1. split; (lia || exact H).
      * apply Bool.eqb_prop in H. exists 0. split; (lia || exact H).
    + intros (i & Hi & H).
      assert (C : i = 0 \/ i = 1 \/ i = 2 \/ i = 3) by lia.
      destruct C as [-> | [-> | [-> | ->]]]; rewrite H, Bool.eqb_reflx;
        rewrite ?orb_true_r; reflexivity.
  - destruct (Z.testbit a 3), (Z.testbit b 3), (Z.testbit a 2), (Z.testbit b 2),
      (Z.testbit a 1), (Z.testbit b 1), (Z.testbit a 0), (Z.testbit b 0); reflexivity.
Qed.

(** *** The ticks of an HMOVE *)

Lemma adjustPosition_pixel (sp : sprite) :
  currentPixel (adjustPosition sp) = pixelToTheLeft (currentPixel sp).
Proof.
  unfold adjustPosition, pixelToTheLeft. simpl.
  destruct (GoInt.int (currentPixel sp - 1) <? 0); reflexivity.
Qed.

Lemma adjustPosition_movement (sp : sprite) :
  horizMovement (adjustPosition sp) = horizMovement sp
  /\ moreMovementRequired (adjustPosition sp) = moreMovementRequired sp
  /\ resetFuture (adjustPosition sp) = resetFuture sp.
Proof.
  unfold adjustPosition. simpl.
  destruct (GoInt.int (currentPixel sp - 1) <? 0); repeat split.
Qed.

Section MovementFacts.

Variable spriteTick : sprite -> sprite.
Variable Force : sprite -> sprite.
Variable ForceReset : Z.

Hypothesis spriteTick_keeps : keepsMovement spriteTick.

Let resolveHMOVE := resolveHMOVE spriteTick Force ForceReset.

(** One call of [resolveHMOVE] on a sprite with no reset pending. *)
Lemma resolveHMOVE_step (sp : sprite) (count : Z) :
  resetFuture sp = None ->
  let going := moreMovementRequired sp
               && compareBits (GoInt.uint8 count) (GoInt.uint8 (horizMovement sp)) in
  resetFuture (resolveHMOVE sp count) = None
  /\ horizMovement (resolveHMOVE sp count) = horizMovement sp
  /\ moreMovementRequired (resolveHMOVE sp count) = going
  /\ currentPixel (resolveHMOVE sp count)
     = if going then pixelToTheLeft (currentPixel sp) else currentPixel sp.
Proof.
  intros Hr. cbv zeta. subst resolveHMOVE. unfold Video.resolveHMOVE.
  set (going := moreMovementRequired sp && _).
  simpl moreMovementRequired.
  destruct going eqn:Hg.
  - unfold resolveForceReset. simpl resetFuture. rewrite Hr.
    destruct (spriteTick_keeps (adjustPosition (set_moreMovementRequired sp true)))
      as (Hp & Hm & Hq & Hf).
    destruct (adjustPosition_movement (set_moreMovementRequired sp true)) as (Am & Aq & Af).
    rewrite Hf, Hm, Hq, Hp, Af, Am, Aq, adjustPosition_pixel. simpl.
    repeat split. exact Hr.
  - simpl. repeat split. exact Hr.
Qed.

(** The calls of [resolveHMOVE] along a sequence of counts. *)
Lemma resolveHMOVE_fold (counts : list Z) :
  forall sp,
    resetFuture sp = None ->
    moreMovementRequired sp = true ->
    let sp1 := fold_left resolveHMOVE counts sp in
    currentPixel sp1
    = Nat.iter (movingCounts (horizMovement sp) counts) pixelToTheLeft (currentPixel sp)
    /\ moreMovementRequired sp1
       = Nat.eqb (movingCounts (horizMovement sp) counts) (List.length counts)
    /\ horizMovement sp1 = horizMovement sp.
Proof.
  assert (Hstopped : forall cs sp,
             resetFuture sp = None -> moreMovementRequired sp = false ->
             currentPixel (fold_left resolveHMOVE cs sp) = currentPixel sp
             /\ moreMovementRequired (fold_left resolveHMOVE cs sp) = false
             /\ horizMovement (fold_left resolveHMOVE cs sp) = horizMovement sp).
  { induction cs as [|c cs IH]; intros sp Hr Hm; [simpl; auto|].
    destruct (resolveHMOVE_step sp c Hr) as (Hr1 & Hh1 & Hm1 & Hp1).
    rewrite Hm in Hm1, Hp1. simpl in Hm1, Hp1.
    destruct (IH (resolveHMOVE sp c) Hr1 Hm1) as (Hp2 & Hm2 & Hh2).
    simpl. rewrite Hp2, Hm2, Hh2. auto. }
  induction counts as [|c counts IH]; intros sp Hr Hm; cbv zeta.
  - simpl. auto.
  - destruct (resolveHMOVE_step sp c Hr) as (Hr1 & Hh1 & Hm1 & Hp1).
    rewrite Hm in Hm1, Hp1. simpl andb in Hm1, Hp1. simpl fold_left. simpl movingCounts.
    destruct (compareBits (GoInt.uint8 c) (GoInt.uint8 (horizMovement sp))) eqn:Hc.
    + destruct (IH (resolveHMOVE sp c) Hr1 Hm1) as (Hp2 & Hm2 & Hh2).
      rewrite Hh1 in *. rewrite Hp2, Hm2, Hh2, Hp1.
      split; [|split; reflexivity].
      rewrite Nat.iter_succ_r. reflexivity.
    + destruct (Hstopped counts (resolveHMOVE sp c) Hr1 Hm1) as (Hp2 & Hm2 & Hh2).
      rewrite Hp2, Hm2, Hh2, Hp1, Hh1. simpl. auto.
Qed.

End MovementFacts.

(** *** A whole HMOVE *)

Lemma movingCounts_hmove (hm : Z) :
  0 <= hm <= 15 -> movingCounts hm hmoveCounts = Z.to_nat hm.
Proof.
  intros H.
  assert (C : hm = 0 \/ hm = 1 \/ hm = 2 \/ hm = 3 \/ hm = 4 \/ hm = 5 \/ hm = 6 \/ hm = 7
              \/ hm = 8 \/ hm = 9 \/ hm = 10 \/ hm = 11 \/ hm = 12 \/ hm = 13 \/ hm = 14
              \/ hm = 15) by lia.
  repeat (destruct C as [-> | C]; [vm_compute; reflexivity|]).
  subst hm. vm_compute. reflexivity.
Qed.

(** [k] pixels to the left, around the edge of the screen once at most. *)
Lemma pixelToTheLeft_iter (k : nat) (p : Z) :
  0 <= p <= GoInt.max_int ->
  Z.of_nat k <= 160 ->
  Nat.iter k pixelToTheLeft p
  = if Z.of_nat k <=? p then p - Z.of_nat k else p - Z.of_nat k + 160.
Proof.
  intros Hp. induction k as [|k IH]; intros Hk.
  - simpl. destruct (Z.leb_spec 0 p); lia.
  - simpl Nat.iter. rewrite IH by lia. unfold pixelToTheLeft.
    destruct (Z.leb_spec (Z.of_nat k) p), (Z.leb_spec (Z.of_nat (S k)) p);
      rewrite GoIntFacts.int_small by (unfold GoInt.min_int, GoInt.max_int in *; lia);
      match goal with |- context [Z.ltb ?a ?b] => destruct (Z.ltb_spec a b) end; lia.
Qed.

Section WholeMovement.

Variable spriteTick : sprite -> sprite.
Variable Force : sprite -> sprite.
Variable ForceReset : Z.

Let resolveHMOVE := resolveHMOVE spriteTick Force ForceReset.

(** X13.  Provided the tick of the sprite's owner, which [resolveHMOVE]
    calls after every move, leaves the pixel, the horizontal movement, the
    movement flag and the pending reset of the sprite as they are: on a
    sprite prepared for the movement and with no reset pending, a sequence
    of calls of [resolveHMOVE] moves the sprite one pixel to the left,
    around the edge of the screen, for every count before the first whose
    low nibble has no bit in common with the sprite's horizontal movement,
    and not at all from that count on; the movement is still required at
    the end only if no such count came. *)
Theorem resolveHMOVE_moves_while_bits_agree (counts : list Z) (sp : sprite) :
  keepsMovement spriteTick ->
  resetFuture sp = None ->
  moreMovementRequired sp = true ->
  let sp1 := fold_left resolveHMOVE counts sp in
  currentPixel sp1
  = Nat.iter (movingCounts (horizMovement sp) counts) pixelToTheLeft (currentPixel sp)
  /\ moreMovementRequired sp1
     = Nat.eqb (movingCounts (horizMovement sp) counts) (List.length counts)
  /\ horizMovement sp1 = horizMovement sp.
Proof.
  intros Hk Hr Hm.
  exact (resolveHMOVE_fold spriteTick Force ForceReset Hk counts sp Hr Hm).
Qed.

(** X14.  Provided the tick of the sprite's owner, which [resolveHMOVE]
    calls after every move, leaves the pixel, the horizontal movement, the
    movement flag and the pending reset of the sprite as they are, a whole
    HMOVE moves a sprite by eight less its horizontal movement: after
    [prepareForHMOVE] and the calls of [resolveHMOVE] for the counts fifteen
    down to one, a sprite that was at a visible pixel, with a movement of 0
    to 15 and no reset pending, is at its pixel plus 8 minus the movement,
    160 more when that is negative; the movement is still required
    afterwards only for a movement of 15. *)
Theorem hmove_moves_by_the_register (sp : sprite) :
  keepsMovement spriteTick ->
  resetFuture sp = None ->
  0 <= horizMovement sp <= 15 ->
  visiblePixel (currentPixel sp) ->
  let sp1 := fold_left resolveHMOVE hmoveCounts (prepareForHMOVE sp) in
  currentPixel sp1
  = (if horizMovement sp <=? currentPixel sp + 8
     then currentPixel sp + 8 - horizMovement sp
     else currentPixel sp + 8 - horizMovement sp + 160)
  /\ moreMovementRequired sp1 = (horizMovement sp =? 15).
Proof.
  intros Hk Hr Hm Hv. cbv zeta. unfold visiblePixel in Hv.
  destruct (resolveHMOVE_fold spriteTick Force ForceReset Hk hmoveCounts
              (prepareForHMOVE sp) Hr eq_refl) as (Hp & Hq & _).
  subst resolveHMOVE. cbv zeta in Hp, Hq. rewrite Hp, Hq.
  change (horizMovement (prepareForHMOVE sp)) with (horizMovement sp).
  rewrite (movingCounts_hmove (horizMovement sp) Hm), prepareForHMOVE_adds_eight.
  rewrite GoIntFacts.int_small by (unfold GoInt.min_int, GoInt.max_int; lia).
  rewrite pixelToTheLeft_iter
    by (rewrite ?Z2Nat.id; unfold GoInt.max_int; lia).
  rewrite Z2Nat.id by lia. split; [reflexivity|].
  change (List.length hmoveCounts) with 15%nat.
  destruct (Z.eqb_spec (horizMovement sp) 15) as [->|Hne]; [reflexivity|].
  apply Nat.eqb_neq. lia.
Qed.

End WholeMovement.

(** *** The graphics scan *)

Lemma tickGraphicsScan_max (sp : sprite) :
  graphicsScanMax (tickGraphicsScan sp) = graphicsScanMax sp.
Proof. unfold tickGraphicsScan. destruct (isDrawing sp); reflexivity. Qed.

Lemma tickGraphicsScan_keeps : keepsMovement tickGraphicsScan.
Proof.
  intros sp. unfold tickGraphicsScan. destruct (isDrawing sp); repeat split.
Qed.

(** X15.  A sprite draws for graphicsScanMax+1 ticks and then stops by
    itself: [k] ticks after [startDrawing] the scan counter is [k], up to
    graphicsScanMax+1 where it stays, and the sprite is drawing exactly
    while [k] is at most graphicsScanMax. *)
Theorem graphics_scan_stops_by_itself (sp : sprite) (k : nat) :
  0 <= graphicsScanMax sp < GoInt.max_int ->
  let sp1 := Nat.iter k tickGraphicsScan (startDrawing sp) in
  graphicsScanCounter sp1 = Z.min (Z.of_nat k) (graphicsScanMax sp + 1)
  /\ graphicsScanMax sp1 = graphicsScanMax sp
  /\ isDrawing sp1 = (Z.of_nat k <=? graphicsScanMax sp).
Proof.
  intros Hmax. cbv zeta.
  assert (H : graphicsScanCounter (Nat.iter k tickGraphicsScan (startDrawing sp))
              = Z.min (Z.of_nat k) (graphicsScanMax sp + 1)
              /\ graphicsScanMax (Nat.iter k tickGraphicsScan (startDrawing sp))
                 = graphicsScanMax sp).
  { induction k as [|k [IHc IHm]].
    - simpl. split; [lia|reflexivity].
    - simpl Nat.iter. rewrite tickGraphicsScan_max. split; [|exact IHm].
      set (s := Nat.iter k tickGraphicsScan (startDrawing sp)) in *.
      unfold tickGraphicsScan, isDrawing. rewrite IHc, IHm.
      destruct (Z.leb_spec (Z.min (Z.of_nat k) (graphicsScanMax sp + 1)) (graphicsScanMax sp)).
      + simpl.
        rewrite GoIntFacts.int_small by (unfold GoInt.min_int, GoInt.max_int in *; lia).
        lia.
      + rewrite IHc. lia. }
  destruct H as [Hc Hm]. split; [exact Hc|split; [exact Hm|]].
  unfold isDrawing. rewrite Hc, Hm.
  destruct (Z.leb_spec (Z.min (Z.of_nat k) (graphicsScanMax sp + 1)) (graphicsScanMax sp)),
    (Z.leb_spec (Z.of_nat k) (graphicsScanMax sp)); try reflexivity; lia.
Qed.

(** *** The theorems above on a sample sprite *)

Lemma resolveHMOVE_moves_while_bits_agree_witness :
  let resolve := resolveHMOVE tickGraphicsScan (fun sp => sp) 3 in
  let sp := prepareForHMOVE (movedSprite 80 7) in
  let sp1 := fold_left resolve [15; 14; 8; 3] sp in
  currentPixel sp1
  = Nat.iter (movingCounts (horizMovement sp) [15; 14; 8; 3]) pixelToTheLeft (currentPixel sp)
  /\ moreMovementRequired sp1
     = Nat.eqb (movingCounts (horizMovement sp) [15; 14; 8; 3]) (List.length [15; 14; 8; 3])
  /\ horizMovement sp1 = horizMovement sp.
Proof.
  apply (resolveHMOVE_moves_while_bits_agree tickGraphicsScan (fun sp => sp) 3
           [15; 14; 8; 3] (prepareForHMOVE (movedSprite 80 7))).
  - exact tickGraphicsScan_keeps.
  - reflexivity.
  - reflexivity.
Defined.

Lemma hmove_moves_by_the_register_witness :
  let sp := movedSprite 80 15 in
  let sp1 := fold_left (resolveHMOVE tickGraphicsScan (fun sp => sp) 3) hmoveCounts
                       (prepareForHMOVE sp) in
  currentPixel sp1
  = (if horizMovement sp <=? currentPixel sp + 8
     then currentPixel sp + 8 - horizMovement sp
     else currentPixel sp + 8 - horizMovement sp + 160)
  /\ moreMovementRequired sp1 = (horizMovement sp =? 15).
Proof.
  apply (hmove_moves_by_the_register tickGraphicsScan (fun sp => sp) 3 (movedSprite 80 15)).
  - exact tickGraphicsScan_keeps.
  - reflexivity.
  - simpl. lia.
  - unfold visiblePixel. simpl. lia.
Defined.

Lemma graphics_scan_stops_by_itself_witness :
  let sp1 := Nat.iter 12 tickGraphicsScan (startDrawing (spriteAt 80)) in
  graphicsScanCounter sp1 = Z.min (Z.of_nat 12) (graphicsScanMax (spriteAt 80) + 1)
  /\ graphicsScanMax sp1 = graphicsScanMax (spriteAt 80)
  /\ isDrawing sp1 = (Z.of_nat 12 <=? graphicsScanMax (spriteAt 80)).
Proof.
  apply (graphics_scan_stops_by_itself (spriteAt 80) 12).
  vm_compute. split; [discriminate|reflexivity].
Defined.

End VideoFacts.

(** ** The television *)

Module TelevisionFacts.

Import Television.

Local Opaque GoInt.int GoInt.int32.

(** *** Renderers *)

Lemma newFrames_app (l : list Call) (c : Call) :
  newFrames (l ++ [c]) = newFrames l ++ match c with NewFrame n => [n] | _ => [] end.
Proof.
  induction l as [|x l IH]; simpl.
  - destruct c; reflexivity.
  - destruct x; simpl; rewrite IH; reflexivity.
Qed.

Lemma sameFrames_refl (rs : list Renderer) : sameFrames rs rs.
Proof. induction rs; constructor; auto. Qed.

Lemma sameFrames_trans (rs rs1 rs2 : list Renderer) :
  sameFrames rs rs1 -> sameFrames rs1 rs2 -> sameFrames rs rs2.
Proof.
  intros H. revert rs2. induction H as [|r r1 rs rs1 [Hr Hf] _ IH]; intros rs2 H2.
  - inversion H2. constructor.
  - inversion H2 as [|? r2 ? rs2' [Hr2 Hf2] H2']; subst. constructor.
    + split; congruence.
    + apply IH. exact H2'.
Qed.



(** A call that is no new frame leaves the new-frame calls as they were,
    whether a renderer refuses it or not. *)
Lemma notify_sameFrames (rs : list Renderer) (c : Call) :
  isNewFrame c = false -> sameFrames rs (fst (notify rs c)).
Proof.
  intros Hc. induction rs as [|r rs IH]; simpl.
  - constructor.
  - destruct (reply r (received r) c) as [err|]; simpl.
    + constructor; [|apply sameFrames_refl].
      simpl. split; [reflexivity|]. rewrite newFrames_app. destruct c; try discriminate;
        now rewrite app_nil_r.
    + destruct (notify rs c) as [rest1 e]. simpl in *. constructor; [|exact IH].
      simpl. split; [reflexivity|]. rewrite newFrames_app. destruct c; try discriminate;
        now rewrite app_nil_r.
Qed.




(** *** The phases of Signal *)

Lemma checkHSync_state (sig : SignalAttributes) (b : BasicTelevision) :
  fst (checkHSync sig b) = b.
Proof.
  unfold checkHSync, bind, get, when, fail, ret.
  destruct (HSync sig && negb (HSync (prevSignal b)));
    [destruct ((horizPos b <? -52) || (horizPos b >? -49)); reflexivity|].
  destruct (negb (HSync sig) && HSync (prevSignal b));
    [destruct ((horizPos b <? -36) || (horizPos b >? -33)); reflexivity|].
  reflexivity.
Qed.

Lemma checkCBurst_state (sig : SignalAttributes) (b : BasicTelevision) :
  fst (checkCBurst sig b) = b.
Proof.
  unfold checkCBurst, bind, get, when, fail, ret.
  destruct (CBurst sig && negb (CBurst (prevSignal b)));
    [destruct ((horizPos b <? -28) || (horizPos b >? -17)); reflexivity|].
  destruct (negb (CBurst sig) && CBurst (prevSignal b));
    [destruct ((horizPos b <? -19) || (horizPos b >? -16)); reflexivity|].
  reflexivity.
Qed.

(** A signal that passes the edge checks passes each of them. *)
Lemma edgesInSpec_checks (b : BasicTelevision) (sig : SignalAttributes) :
  edgesInSpec b sig = true ->
  checkHSync sig b = (b, inl tt) /\ checkCBurst sig b = (b, inl tt).
Proof.
  unfold edgesInSpec, bind.
  pose proof (checkHSync_state sig b) as H1.
  destruct (checkHSync sig b) as [b1 [[]|e]]; simpl in H1; subst b1; [|discriminate].
  pose proof (checkCBurst_state sig b) as H2.
  destruct (checkCBurst sig b) as [b2 [[]|e]]; simpl in H2; subst b2; [|discriminate].
  auto.
Qed.

(** [Signal], phase by phase. *)
Lemma Signal_phases getColor (btv : BasicTelevision) (sig : SignalAttributes) :
  Signal getColor btv sig =
  match checkHSync sig btv with
  | (b1, inr e) => (b1, Some e)
  | (b1, inl _) =>
  match checkCBurst sig b1 with
  | (b2, inr e) => (b2, Some e)
  | (b2, inl _) =>
  match vsync sig b2 with
  | (b3, inr e) => (b3, Some e)
  | (b3, inl _) =>
  match frontPorch sig b3 with
  | (b4, inr e) => (b4, Some e)
  | (b4, inl _) =>
  match tail getColor sig b4 with
  | (b5, inr e) => (b5, Some e)
  | (b5, inl _) => (b5, None)
  end end end end end.
Proof.
  unfold Signal, SignalM, tail. unfold bind at 1 2 3 4.
  destruct (checkHSync sig btv) as [b1 [u1|e1]]; [|reflexivity].
  destruct (checkCBurst sig b1) as [b2 [u2|e2]]; [|reflexivity].
  destruct (vsync sig b2) as [b3 [u3|e3]]; [|reflexivity].
  destruct (frontPorch sig b3) as [b4 [u4|e4]]; [|reflexivity].
  reflexivity.
Qed.

Lemma settled_refl (b : BasicTelevision) : settled b b.
Proof. constructor; try reflexivity. apply sameFrames_refl. Qed.

Lemma settled_trans (b b1 b2 : BasicTelevision) :
  settled b b1 -> settled b1 b2 -> settled b b2.
Proof.
  intros [] []. constructor; try congruence.
  eapply sameFrames_trans; eassumption.
Qed.

Lemma pushLimits_settled (sig : SignalAttributes) (b : BasicTelevision) :
  settled b (pushLimits sig b).
Proof.
  unfold pushLimits.
  destruct (negb (VBlank sig)); [|apply settled_refl].
  apply settled_trans with (pushBottom b).
  - unfold pushBottom.
    destruct (endOfScreen b && (scanline b >? pendingVisibleBottom b)); [|apply settled_refl].
    simpl. destruct (_ >? _); constructor; try reflexivity; apply sameFrames_refl.
  - generalize (pushBottom b). intros b1. unfold pushTop.
    destruct (scanline b1 <? pendingVisibleTop b1); [|apply settled_refl].
    simpl. destruct (_ <? _); constructor; try reflexivity; apply sameFrames_refl.
Qed.

Lemma send_settled (c : BasicTelevision -> Call) (b : BasicTelevision) :
  isNewFrame (c b) = false -> settled b (fst (send c b)).
Proof.
  intros Hc. unfold send.
  pose proof (notify_sameFrames (renderers b) (c b) Hc) as H.
  destruct (notify (renderers b) (c b)) as [rs [e|]]; simpl in *;
    constructor; try reflexivity; exact H.
Qed.

Lemma bind_fst {A B : Type} (m : M A) (k : A -> M B) (b : BasicTelevision) :
  fst (bind m k b)
  = match m b with
    | (b1, inl a) => fst (k a b1)
    | (b1, inr _) => b1
    end.
Proof. unfold bind. destruct (m b) as [b1 [a|e]]; reflexivity. Qed.

Lemma pixels_settled getColor (sig : SignalAttributes) (b : BasicTelevision) :
  settled b (fst (pixels getColor sig b)).
Proof.
  unfold pixels. rewrite bind_fst. unfold get, when.
  destruct (negb (endOfScreen b)); [|apply settled_refl].
  destruct (getColor (spec b) (Pixel sig)) as [[r g] bl].
  destruct (getColor (spec b) (AltPixel sig)) as [[r1 g1] bl1].
  rewrite bind_fst.
  match goal with |- context [send ?c b] =>
    pose proof (send_settled c b eq_refl) as H1; destruct (send c b) as [b1 [u|e]] end;
    simpl in H1; [|exact H1].
  eapply settled_trans; [exact H1|]. apply send_settled. reflexivity.
Qed.

Lemma tail_settled getColor (sig : SignalAttributes) (b : BasicTelevision) :
  settled b (fst (tail getColor sig b)).
Proof.
  unfold tail. rewrite bind_fst. unfold modify at 1. rewrite bind_fst. unfold modify.
  eapply settled_trans; [apply pushLimits_settled|].
  eapply settled_trans; [|apply pixels_settled].
  constructor; try reflexivity. apply sameFrames_refl.
Qed.


Lemma vsync_held (sig : SignalAttributes) (b : BasicTelevision) :
  VSync sig = true ->
  vsync sig b = (set_vsyncCount b (GoInt.int (vsyncCount b + 1)), inl tt).
Proof. unfold vsync. intros ->. reflexivity. Qed.

(** The VSYNC phase changes neither the specification nor the horizontal
    position. *)
Lemma vsync_still (sig : SignalAttributes) (b : BasicTelevision) :
  spec (fst (vsync sig b)) = spec b /\ horizPos (fst (vsync sig b)) = horizPos b.
Proof.
  unfold vsync. destruct (VSync sig); [split; reflexivity|].
  unfold bind, get, when, newFrame, bind, modify, send.
  destruct (vsyncCount b >=? VsyncClocks (spec b)); [|split; reflexivity].
  cbv zeta.
  match goal with |- context [notify ?rs ?c] => destruct (notify rs c) as [rs1 [e|]] end;
    split; reflexivity.
Qed.


(** The new scanline or the clock: what it keeps, and the scanline. *)
Lemma frontPorch_quiet (sig : SignalAttributes) (b : BasicTelevision) :
  let b1 := fst (frontPorch sig b) in
  spec b1 = spec b
  /\ frameNum b1 = frameNum b
  /\ vsyncCount b1 = vsyncCount b
  /\ sameFrames (renderers b) (renderers b1)
  /\ scanline b1 = (if FrontPorch sig then GoInt.int (scanline b + 1) else scanline b).
Proof.
  unfold frontPorch. destruct (FrontPorch sig).
  - unfold bind, modify, send, get, when. cbv zeta.
    match goal with |- context [notify ?rs ?c] =>
      pose proof (notify_sameFrames rs c eq_refl) as H; destruct (notify rs c) as [rs1 [e|]]
    end; simpl in H |- *.
    + repeat split; try reflexivity. exact H.
    + destruct (_ >? _); simpl; repeat split; try reflexivity; exact H.
  - unfold bind, modify, get, when, fail, ret. simpl.
    destruct (_ >? _); simpl; repeat split; try reflexivity; apply sameFrames_refl.
Qed.

(** The new scanline or the clock: the horizontal position. *)
Lemma frontPorch_horizPos (sig : SignalAttributes) (b : BasicTelevision) :
  spec (fst (frontPorch sig b)) = spec b
  /\ horizPos (fst (frontPorch sig b))
     = (if FrontPorch sig then GoInt.int (- ClocksPerHblank (spec b))
        else GoInt.int (horizPos b + 1))
  /\ (FrontPorch sig = false ->
      ClocksPerVisible (spec b) < horizPos (fst (frontPorch sig b)) ->
      snd (frontPorch sig b) = inr (outOfSpecError "no FRONTPORCH")).
Proof.
  unfold frontPorch. destruct (FrontPorch sig).
  - unfold bind, modify, send, get, when. cbv zeta.
    match goal with |- context [notify ?rs ?c] => destruct (notify rs c) as [rs1 [e|]] end;
      simpl.
    + repeat split; try reflexivity. discriminate.
    + destruct (_ >? _); simpl; repeat split; try reflexivity; discriminate.
  - unfold bind, modify, get, when, fail, ret. simpl.
    destruct (Z.gtb_spec (GoInt.int (horizPos b + 1)) (ClocksPerVisible (spec b)));
      simpl; repeat split; try reflexivity. intros _ Hgt. lia.
Qed.


(** *** The horizontal position *)

Section SignalFacts.

Variable getColor : Specification -> Z -> Z * Z * Z.

Let Signal := Signal getColor.
Let Signals := Signals getColor.
Let allEdgesInSpec := allEdgesInSpec getColor.

(** What a call of [Signal] does to the horizontal position.  A call that
    gets as far as the front porch either sets it to -ClocksPerHblank (on
    FRONTPORCH) or adds one to it, and when the sum is above
    ClocksPerVisible the call returns the error "no FRONTPORCH", the sum
    being stored all the same; a call that returns before that returns an
    error and leaves the horizontal position as it was. *)
Theorem Signal_horizPos (btv : BasicTelevision) (sig : SignalAttributes) :
  let after := fst (Signal btv sig) in
  let err := snd (Signal btv sig) in
  if reachesFrontPorch btv sig then
    horizPos after = (if FrontPorch sig then GoInt.int (- ClocksPerHblank (spec btv))
                      else GoInt.int (horizPos btv + 1))
    /\ (FrontPorch sig = false ->
        ClocksPerVisible (spec btv) < horizPos after ->
        err = Some (outOfSpecError "no FRONTPORCH"))
  else
    err <> None /\ horizPos after = horizPos btv.
Proof.
  subst Signal. cbv zeta. rewrite Signal_phases. unfold reachesFrontPorch, bind.
  pose proof (checkHSync_state sig btv) as H1.
  destruct (checkHSync sig btv) as [b1 [u1|e1]]; simpl in H1; subst b1;
    [|split; [discriminate|reflexivity]].
  pose proof (checkCBurst_state sig btv) as H2.
  destruct (checkCBurst sig btv) as [b2 [u2|e2]]; simpl in H2; subst b2;
    [|split; [discriminate|reflexivity]].
  destruct (vsync_still sig btv) as [Hs3 Hh3].
  destruct (vsync sig btv) as [b3 [u3|e3]]; simpl in Hs3, Hh3;
    [|split; [discriminate|exact Hh3]].
  destruct (frontPorch_horizPos sig b3) as (Hs4 & Hh4 & He4).
  rewrite Hs3, Hh3 in Hh4. rewrite Hs3 in He4.
  destruct (frontPorch sig b3) as [b4 [u4|e4]]; simpl in Hs4, Hh4, He4.
  - destruct (tail_settled getColor sig b4) as [_ Hh5 _ _ _ _].
    destruct (tail getColor sig b4) as [b5 [u5|e5]]; simpl in Hh5 |- *;
      rewrite Hh5; (split; [exact Hh4|]);
      intros Hfp Hgt; specialize (He4 Hfp Hgt); discriminate.
  - simpl. split; [exact Hh4|].
    intros Hfp Hgt. specialize (He4 Hfp Hgt). injection He4 as ->. reflexivity.
Qed.

(** *** HSYNC out of its window *)


(** Likewise when HSYNC goes off outside -36..-33. *)
Lemma Signal_hsync_off_outside (btv : BasicTelevision) (sig : SignalAttributes) :
  HSync sig = false ->
  HSync (prevSignal btv) = true ->
  horizPos btv < -36 \/ -33 < horizPos btv ->
  Signal btv sig
  = (btv, Some (outOfSpecError ("bad HSYNC (off at " ++ Fmt.dec (horizPos btv) ++ ")"))).
Proof.
  intros Hs Hp Hout. subst Signal. rewrite Signal_phases.
  unfold checkHSync, bind, get, when, fail. rewrite Hs, Hp. simpl.
  destruct (Z.ltb_spec (horizPos btv) (-36)); [reflexivity|].
  destruct (Z.gtb_spec (horizPos btv) (-33)); [reflexivity|lia].
Qed.

(** *** Sustained VSYNC *)

(** One clock of VSYNC that passes the edge checks is counted. *)
Lemma Signal_held (btv : BasicTelevision) (sig : SignalAttributes) :
  edgesInSpec btv sig = true ->
  VSync sig = true ->
  let after := fst (Signal btv sig) in
  spec after = spec btv
  /\ frameNum after = frameNum btv
  /\ vsyncCount after = GoInt.int (vsyncCount btv + 1)
  /\ sameFrames (renderers btv) (renderers after).
Proof.
  intros He Hv. subst Signal. cbv zeta. rewrite Signal_phases.
  destruct (edgesInSpec_checks btv sig He) as [-> ->].
  rewrite (vsync_held sig btv Hv).
  set (b3 := set_vsyncCount btv _).
  destruct (frontPorch_quiet sig b3) as (Hs & Hf & Hc & Hr & _).
  destruct (frontPorch sig b3) as [b4 [u4|e4]]; simpl in Hs, Hf, Hc, Hr.
  - destruct (tail_settled getColor sig b4) as [Hs5 _ Hf5 _ Hc5 Hr5].
    destruct (tail getColor sig b4) as [b5 [u5|e5]]; simpl in Hs5, Hf5, Hc5, Hr5 |- *;
      (split; [congruence|split; [congruence|split; [congruence|]]]);
      eapply sameFrames_trans; eassumption.
  - simpl. auto.
Qed.






End SignalFacts.

(** *** The sample television *)

Lemma NewBasicTelevision_ntsc :
  forall mapUpper, NewBasicTelevision mapUpper sampleNTSC samplePAL "ntsc" = inl sampleTelevision.
Proof. vm_compute. reflexivity. Qed.




(** C6 on the NTSC television, 227 clocks after it started: the horizontal
    position is 159, the last of the documented range.  One more clock
    without a front porch is not reported: [Signal] returns nil, stores 160,
    outside the range, and sends the renderer its two pixels at x = 228, one
    past the 228 clocks of a scanline.  It is the clock after that one which
    is reported, as "no FRONTPORCH". *)
Theorem Signal_lets_horizPos_leave_its_range :
  let tv227 := Signals sampleGetColor watched (repeat noSignal 227) in
  let result := Signal sampleGetColor tv227 noSignal in
  horizPos tv227 = 159
  /\ horizPosAsDocumented tv227
  /\ snd result = None
  /\ horizPos (fst result) = 160
  /\ ~ horizPosAsDocumented (fst result)
  /\ map (lastCalls 2) (renderers (fst result))
     = [[SetPixel 228 0 0 0 0 false; SetAltPixel 228 0 0 0 0 false]]
  /\ snd (Signal sampleGetColor (fst result) noSignal)
     = Some (outOfSpecError "no FRONTPORCH").
Proof.
  cbv zeta. unfold horizPosAsDocumented.
  split; [vm_compute; reflexivity|].
  split; [vm_compute; split; discriminate|].
  split; [vm_compute; reflexivity|].
  split; [vm_compute; reflexivity|].
  split; [vm_compute; intros [_ H]; apply H; reflexivity|].
  split; vm_compute; reflexivity.
Qed.

(** *** What the renderers receive *)

Lemma sameCalls_refl (P : Call -> bool) (rs : list Renderer) : sameCalls P rs rs.
Proof. induction rs; constructor; auto. Qed.

Lemma sameCalls_trans (P : Call -> bool) (rs rs1 rs2 : list Renderer) :
  sameCalls P rs rs1 -> sameCalls P rs1 rs2 -> sameCalls P rs rs2.
Proof.
  intros H. revert rs2. induction H as [|r r1 rs rs1 [Hr Hf] _ IH]; intros rs2 H2.
  - inversion H2. constructor.
  - inversion H2 as [|? r2 ? rs2' [Hr2 Hf2] H2']; subst. constructor.
    + split; congruence.
    + apply IH. exact H2'.
Qed.

(** A call that is not of the kind [P] leaves the calls of that kind as
    they were, whether a renderer refuses it or not. *)
Lemma notify_sameCalls (P : Call -> bool) (rs : list Renderer) (c : Call) :
  P c = false -> sameCalls P rs (fst (notify rs c)).
Proof.
  intros Hc. induction rs as [|r rs IH]; simpl.
  - constructor.
  - destruct (reply r (received r) c) as [err|]; simpl.
    + constructor; [|apply sameCalls_refl].
      simpl. split; [reflexivity|]. rewrite filter_app. simpl. rewrite Hc.
      apply app_nil_r.
    + destruct (notify rs c) as [rest1 e]. simpl in *. constructor; [|exact IH].
      simpl. split; [reflexivity|]. rewrite filter_app. simpl. rewrite Hc.
      apply app_nil_r.
Qed.

(** A call that no renderer refuses reaches every renderer. *)
Lemma notify_returns_nil (rs : list Renderer) (c : Call) :
  snd (notify rs c) = None -> received_last c rs (fst (notify rs c)).
Proof.
  induction rs as [|r rs IH]; simpl; intros H.
  - constructor.
  - destruct (reply r (received r) c) as [err|]; simpl in *; [discriminate|].
    destruct (notify rs c) as [rest1 e]. simpl in *. constructor.
    + simpl. split; reflexivity.
    + apply IH. exact H.
Qed.


Lemma received_last_sameCalls (P : Call -> bool) (c : Call) (rs rs1 : list Renderer) :
  P c = false -> received_last c rs rs1 -> sameCalls P rs rs1.
Proof.
  intros Hc. induction 1 as [|r r1 rs rs1 [Hr Hl] _ IH]; constructor; [|exact IH].
  split; [exact Hr|]. rewrite Hl, filter_app. simpl. rewrite Hc. apply app_nil_r.
Qed.

(** A television is its fields. *)
Lemma set_renderers_same (b : BasicTelevision) : set_renderers b (renderers b) = b.
Proof. destruct b. reflexivity. Qed.

(** [send] touches the renderers only. *)
Lemma send_renderers_only (c : BasicTelevision -> Call) (b : BasicTelevision) :
  fst (send c b) = set_renderers b (fst (notify (renderers b) (c b))).
Proof.
  unfold send. destruct (notify (renderers b) (c b)) as [rs [e|]]; reflexivity.
Qed.

(** So does the sending of the pixels. *)
Lemma pixels_renderers_only getColor (sig : SignalAttributes) (b : BasicTelevision) :
  exists rs, fst (pixels getColor sig b) = set_renderers b rs.
Proof.
  unfold pixels. rewrite bind_fst. unfold get, when.
  destruct (negb (endOfScreen b)).
  - destruct (getColor (spec b) (Pixel sig)) as [[r g] bl].
    destruct (getColor (spec b) (AltPixel sig)) as [[r1 g1] bl1].
    rewrite bind_fst.
    match goal with |- context [send ?c b] =>
      pose proof (send_renderers_only c b) as H1; destruct (send c b) as [b1 [u|e]] end;
      simpl in H1; subst b1.
    + rewrite send_renderers_only. eexists. reflexivity.
    + eexists. reflexivity.
  - exists (renderers b). simpl. symmetry. apply set_renderers_same.
Qed.

Lemma tail_pixels getColor (sig : SignalAttributes) (b : BasicTelevision) :
  tail getColor sig b = pixels getColor sig (beforePixels sig b).
Proof. reflexivity. Qed.

Lemma pushLimits_flags (sig : SignalAttributes) (b : BasicTelevision) :
  endOfScreen (pushLimits sig b) = endOfScreen b
  /\ outOfSpec (pushLimits sig b) = outOfSpec b
  /\ visibleTop (pushLimits sig b) = visibleTop b
  /\ visibleBottom (pushLimits sig b) = visibleBottom b
  /\ renderers (pushLimits sig b) = renderers b.
Proof.
  unfold pushLimits. destruct (negb (VBlank sig)); [|repeat split].
  unfold pushTop, pushBottom.
  destruct (endOfScreen b && (scanline b >? pendingVisibleBottom b)); simpl;
    repeat match goal with |- context [if ?c then _ else _] => destruct c; simpl end;
    repeat split.
Qed.
Lemma received_last_twice (c1 c2 : Call) (rs rs1 rs2 : list Renderer) :
  received_last c1 rs rs1 -> received_last c2 rs1 rs2 ->
  Forall (fun r => exists earlier, received r = earlier ++ [c1; c2]) rs2.
Proof.
  intros H. revert rs2. induction H as [|r r1 rs rs1 [_ Hl] _ IH]; intros rs2 H2.
  - inversion H2. constructor.
  - inversion H2 as [|? r2 ? rs2' [_ Hl2] H2']; subst. constructor; [|auto].
    exists (received r). rewrite Hl2, Hl, <- app_assoc. reflexivity.
Qed.

(** The pixels, when they are sent and no renderer refuses them. *)
Lemma pixels_sent getColor (sig : SignalAttributes) (b b1 : BasicTelevision) :
  pixels getColor sig b = (b1, inl tt) ->
  endOfScreen b = false ->
  let x := GoInt.int32 (GoInt.int32 (horizPos b) + GoInt.int32 (ClocksPerHblank (spec b))) in
  let y := GoInt.int32 (scanline b) in
  exists rs,
    b1 = set_renderers b rs
    /\ Forall (fun r => exists earlier,
                 received r = earlier ++
                   [pixelCall SetPixel x y (getColor (spec b) (Pixel sig)) (VBlank sig);
                    pixelCall SetAltPixel x y (getColor (spec b) (AltPixel sig)) (VBlank sig)])
              rs.
Proof.
  intros Hp He. cbv zeta. unfold pixels, bind, get, when in Hp. rewrite He in Hp.
  change (negb false) with true in Hp. cbv beta iota in Hp. unfold pixelCall.
  destruct (getColor (spec b) (Pixel sig)) as [[r g] bl].
  destruct (getColor (spec b) (AltPixel sig)) as [[r1 g1] bl1].
  unfold send in Hp.
  match type of Hp with context [notify (renderers b) ?c] =>
    pose proof (notify_returns_nil (renderers b) c) as N1;
    destruct (notify (renderers b) c) as [rs1 [e1|]] end; [discriminate|].
  simpl renderers in Hp.
  match type of Hp with context [notify rs1 ?c] =>
    pose proof (notify_returns_nil rs1 c) as N2;
    destruct (notify rs1 c) as [rs2 [e2|]] end; [discriminate|].
  injection Hp as <-. exists rs2. split; [reflexivity|].
  eapply received_last_twice; [apply N1|apply N2]; reflexivity.
Qed.

Lemma pixels_not_sent getColor (sig : SignalAttributes) (b : BasicTelevision) :
  endOfScreen b = true -> pixels getColor sig b = (b, inl tt).
Proof. intros He. unfold pixels, bind, get, when. rewrite He. reflexivity. Qed.

(** X1.  When a call of [Signal] returns nil and leaves a television whose
    screen has not ended, the last two calls that every renderer has
    received are the pixel and the alternative pixel of the signal, at the
    horizontal position counted from the start of the blank and at the
    scanline the television is left at. *)
Theorem Signal_sends_the_pixels getColor (btv : BasicTelevision) (sig : SignalAttributes) :
  snd (Signal getColor btv sig) = None ->
  endOfScreen (fst (Signal getColor btv sig)) = false ->
  let after := fst (Signal getColor btv sig) in
  let x := GoInt.int32 (GoInt.int32 (horizPos after)
                        + GoInt.int32 (ClocksPerHblank (spec after))) in
  let y := GoInt.int32 (scanline after) in
  Forall (fun r => exists earlier,
            received r = earlier ++
              [pixelCall SetPixel x y (getColor (spec after) (Pixel sig)) (VBlank sig);
               pixelCall SetAltPixel x y (getColor (spec after) (AltPixel sig))
                         (VBlank sig)])
         (renderers after).
Proof.
  cbv zeta. rewrite Signal_phases.
  destruct (checkHSync sig btv) as [b1 [u1|e1]]; [|discriminate].
  destruct (checkCBurst sig b1) as [b2 [u2|e2]]; [|discriminate].
  destruct (vsync sig b2) as [b3 [u3|e3]]; [|discriminate].
  destruct (frontPorch sig b3) as [b4 [u4|e4]]; [|discriminate].
  rewrite tail_pixels.
  destruct (pixels_renderers_only getColor sig (beforePixels sig b4)) as [rs0 Hrs].
  destruct (pixels getColor sig (beforePixels sig b4)) as [b5 [[]|e5]] eqn:Hp;
    [|discriminate].
  simpl in Hrs |- *. intros _ He. subst b5. simpl in He.
  destruct (pixels_sent getColor sig _ _ Hp He) as (rs & Hb & Hall).
  rewrite Hb. simpl. exact Hall.
Qed.

Lemma vsync_sameCalls (P : Call -> bool) (sig : SignalAttributes) (b : BasicTelevision) :
  (forall n, P (NewFrame n) = false) ->
  sameCalls P (renderers b) (renderers (fst (vsync sig b))).
Proof.
  intros HP. unfold vsync. destruct (VSync sig); [apply sameCalls_refl|].
  unfold bind, get, when, newFrame, bind, modify, send.
  destruct (vsyncCount b >=? VsyncClocks (spec b)); [|apply sameCalls_refl].
  cbv zeta. simpl renderers.
  match goal with |- context [notify (renderers b) ?c] =>
    pose proof (notify_sameCalls P (renderers b) c (HP _)) as H;
    destruct (notify (renderers b) c) as [rs1 [e|]] end; exact H.
Qed.

Lemma frontPorch_sameCalls (P : Call -> bool) (sig : SignalAttributes) (b : BasicTelevision) :
  (forall n, P (NewScanline n) = false) ->
  sameCalls P (renderers b) (renderers (fst (frontPorch sig b))).
Proof.
  intros HP. unfold frontPorch. destruct (FrontPorch sig).
  - unfold bind, modify, send, get, when. cbv zeta. simpl renderers.
    match goal with |- context [notify (renderers b) ?c] =>
      pose proof (notify_sameCalls P (renderers b) c (HP _)) as H;
      destruct (notify (renderers b) c) as [rs1 [e|]] end; simpl in H |- *; [exact H|].
    destruct (_ >? _); exact H.
  - unfold bind, modify, get, when, fail, ret. simpl.
    destruct (_ >? _); apply sameCalls_refl.
Qed.

(** X2.  "pixels will not be sent to the renderer when endOfScreen is
    true": a call of [Signal] that leaves a television whose screen has
    ended has sent no renderer a pixel, whatever it returns. *)
Theorem Signal_sends_no_pixel_after_the_screen getColor
        (btv : BasicTelevision) (sig : SignalAttributes) :
  endOfScreen (fst (Signal getColor btv sig)) = true ->
  sameCalls isPixel (renderers btv) (renderers (fst (Signal getColor btv sig))).
Proof.
  rewrite Signal_phases.
  pose proof (checkHSync_state sig btv) as H1.
  destruct (checkHSync sig btv) as [b1 [u1|e1]]; simpl in H1; subst b1;
    [|intros _; apply sameCalls_refl].
  pose proof (checkCBurst_state sig btv) as H2.
  destruct (checkCBurst sig btv) as [b2 [u2|e2]]; simpl in H2; subst b2;
    [|intros _; apply sameCalls_refl].
  pose proof (vsync_sameCalls isPixel sig btv (fun _ => eq_refl)) as H3.
  destruct (vsync sig btv) as [b3 [u3|e3]]; simpl in H3; [|intros _; exact H3].
  pose proof (frontPorch_sameCalls isPixel sig b3 (fun _ => eq_refl)) as H4.
  destruct (frontPorch sig b3) as [b4 [u4|e4]]; simpl in H4;
    [|intros _; eapply sameCalls_trans; eassumption].
  rewrite tail_pixels.
  destruct (pixels_renderers_only getColor sig (beforePixels sig b4)) as [rs0 Hrs].
  assert (He : endOfScreen (fst (pixels getColor sig (beforePixels sig b4))) = true ->
               fst (pixels getColor sig (beforePixels sig b4)) = beforePixels sig b4).
  { rewrite Hrs. simpl. intros He.
    pose proof (pixels_not_sent getColor sig (beforePixels sig b4)) as Hn.
    simpl in Hn. rewrite (Hn He) in Hrs. simpl in Hrs. rewrite <- Hrs. reflexivity. }
  destruct (pixels getColor sig (beforePixels sig b4)) as [b5 [u5|e5]]; simpl in He |- *;
    intros Hend; rewrite (He Hend); simpl;
    destruct (pushLimits_flags sig b4) as (_ & _ & _ & _ & ->);
    eapply sameCalls_trans; eassumption.
Qed.
(** *** The windows of the edges *)

Ltac window_cases :=
  repeat match goal with
         | |- context [Z.ltb ?a ?b] => destruct (Z.ltb_spec a b); simpl
         | |- context [Z.gtb ?a ?b] => destruct (Z.gtb_spec a b); simpl
         end.

Ltac solve_window :=
  split;
  [ intros Hw; first [discriminate Hw | split; intros; first [congruence | lia]]
  | intros Hw;
    first [ reflexivity
          | exfalso; destruct Hw as [W1 W2];
            first [ specialize (W1 eq_refl eq_refl); lia
                  | specialize (W2 eq_refl eq_refl); lia ] ] ].

Lemma checkHSync_iff_windows (btv : BasicTelevision) (sig : SignalAttributes) :
  snd (checkHSync sig btv) = inl tt <-> hsyncWindows btv sig.
Proof.
  unfold hsyncWindows, checkHSync, bind, get, when, fail, ret.
  destruct (HSync sig), (HSync (prevSignal btv)); simpl; window_cases; solve_window.
Qed.

Lemma checkCBurst_iff_windows (btv : BasicTelevision) (sig : SignalAttributes) :
  snd (checkCBurst sig btv) = inl tt <-> cburstWindows btv sig.
Proof.
  unfold cburstWindows, checkCBurst, bind, get, when, fail, ret.
  destruct (CBurst sig), (CBurst (prevSignal btv)); simpl; window_cases; solve_window.
Qed.

(** X3.  The edge checks at the head of [Signal] let a signal through
    exactly when HSYNC comes on between -52 and -49 and goes off between -36
    and -33, and CBURST comes on between -28 and -17 and goes off between
    -19 and -16; a signal without an edge always passes. *)
Theorem edgesInSpec_iff_windows (btv : BasicTelevision) (sig : SignalAttributes) :
  edgesInSpec btv sig = true <-> hsyncWindows btv sig /\ cburstWindows btv sig.
Proof.
  rewrite <- checkHSync_iff_windows, <- checkCBurst_iff_windows.
  unfold edgesInSpec, bind.
  pose proof (checkHSync_state sig btv) as H1.
  destruct (checkHSync sig btv) as [b1 [[]|e1]]; simpl in H1 |- *; subst b1.
  - destruct (checkCBurst sig btv) as [b2 [[]|e2]]; simpl;
      split; intros Hw; try reflexivity; try discriminate; auto.
    destruct Hw as [_ Hw]. discriminate.
  - split; intros Hw; [discriminate|]. destruct Hw as [Hw _]. discriminate.
Qed.

(** *** VSYNC below the threshold *)

Lemma vsync_idle (sig : SignalAttributes) (b : BasicTelevision) :
  VSync sig = false ->
  vsyncCount b < VsyncClocks (spec b) ->
  vsync sig b = (b, inl tt).
Proof.
  intros Hv Hc. unfold vsync, bind, get, when. rewrite Hv.
  destruct (Z.geb_spec (vsyncCount b) (VsyncClocks (spec b))); [lia|reflexivity].
Qed.

(** A clock without VSYNC, while the count is below the threshold, changes
    neither the count nor the frame. *)
Lemma Signal_idle getColor (btv : BasicTelevision) (sig : SignalAttributes) :
  edgesInSpec btv sig = true ->
  VSync sig = false ->
  vsyncCount btv < VsyncClocks (spec btv) ->
  let after := fst (Signal getColor btv sig) in
  spec after = spec btv
  /\ frameNum after = frameNum btv
  /\ vsyncCount after = vsyncCount btv
  /\ sameFrames (renderers btv) (renderers after).
Proof.
  intros He Hv Hc. cbv zeta. rewrite Signal_phases.
  destruct (edgesInSpec_checks btv sig He) as [-> ->].
  rewrite (vsync_idle sig btv Hv Hc).
  destruct (frontPorch_quiet sig btv) as (Hs & Hf & Hc4 & Hr & _).
  destruct (frontPorch sig btv) as [b4 [u4|e4]]; simpl in Hs, Hf, Hc4, Hr.
  - destruct (tail_settled getColor sig b4) as [Hs5 _ Hf5 _ Hc5 Hr5].
    destruct (tail getColor sig b4) as [b5 [u5|e5]]; simpl in Hs5, Hf5, Hc5, Hr5 |- *;
      (split; [congruence|split; [congruence|split; [congruence|]]]);
      eapply sameFrames_trans; eassumption.
  - simpl. auto.
Qed.

Lemma vsyncClocks_cons (sig : SignalAttributes) (sigs : list SignalAttributes) :
  vsyncClocks (sig :: sigs) = (if VSync sig then 1 else 0) + vsyncClocks sigs.
Proof.
  unfold vsyncClocks. simpl. destruct (VSync sig); simpl List.length; lia.
Qed.

Lemma vsyncClocks_nonneg (sigs : list SignalAttributes) : 0 <= vsyncClocks sigs.
Proof. unfold vsyncClocks. lia. Qed.

(** X4.  The clocks of VSYNC are counted whether they follow each other or
    not: along any sequence of signals that pass the edge checks, as long
    as the count stays below VsyncClocks, the count grows by the number of
    signals that carry VSYNC, the signals without VSYNC in between do not
    reset it, and no new frame starts. *)
Theorem Signals_count_vsync getColor (sigs : list SignalAttributes) :
  forall btv,
    allEdgesInSpec getColor btv sigs = true ->
    0 <= vsyncCount btv ->
    vsyncCount btv + vsyncClocks sigs < VsyncClocks (spec btv) ->
    VsyncClocks (spec btv) <= GoInt.max_int ->
    let after := Signals getColor btv sigs in
    vsyncCount after = vsyncCount btv + vsyncClocks sigs
    /\ frameNum after = frameNum btv
    /\ spec after = spec btv
    /\ sameFrames (renderers btv) (renderers after).
Proof.
  induction sigs as [|sig sigs IH]; intros btv He H0 Hlt Hmax; cbv zeta.
  - unfold vsyncClocks. simpl. repeat split; try lia. apply sameFrames_refl.
  - simpl in He. apply andb_prop in He. destruct He as [He1 He2].
    rewrite vsyncClocks_cons in *. pose proof (vsyncClocks_nonneg sigs) as Hn.
    assert (Hstep : spec (fst (Signal getColor btv sig)) = spec btv
                    /\ frameNum (fst (Signal getColor btv sig)) = frameNum btv
                    /\ vsyncCount (fst (Signal getColor btv sig))
                       = vsyncCount btv + (if VSync sig then 1 else 0)
                    /\ sameFrames (renderers btv) (renderers (fst (Signal getColor btv sig)))).
    { destruct (VSync sig) eqn:Hv.
      - destruct (Signal_held getColor btv sig He1 Hv) as (Hs & Hf & Hc & Hr).
        repeat split; try assumption. rewrite Hc. apply GoIntFacts.int_small.
        unfold GoInt.min_int, GoInt.max_int in *. lia.
      - destruct (Signal_idle getColor btv sig He1 Hv) as (Hs & Hf & Hc & Hr); [lia|].
        repeat split; try assumption. lia. }
    destruct Hstep as (Hs & Hf & Hc & Hr).
    specialize (IH (fst (Signal getColor btv sig)) He2). cbv zeta in IH.
    rewrite Hs, Hc in IH.
    destruct IH as (Hc2 & Hf2 & Hs2 & Hr2).
    { destruct (VSync sig); lia. }
    { lia. }
    { exact Hmax. }
    change (Signals getColor btv (sig :: sigs))
      with (Signals getColor (fst (Signal getColor btv sig)) sigs).
    split; [lia|split; [congruence|split; [congruence|]]].
    eapply sameFrames_trans; eassumption.
Qed.
(** *** The flags *)


(** What the new scanline or the clock does to the flags and to the limits
    of the screen. *)
Lemma frontPorch_flags (sig : SignalAttributes) (b : BasicTelevision) :
  let b1 := fst (frontPorch sig b) in
  visibleTop b1 = visibleTop b
  /\ visibleBottom b1 = visibleBottom b
  /\ pendingVisibleTop b1 = pendingVisibleTop b
  /\ pendingVisibleBottom b1 = pendingVisibleBottom b
  /\ (FrontPorch sig = false \/ GoInt.int (scanline b + 1) <= ScanlinesTotal (spec b) ->
      outOfSpec b1 = outOfSpec b /\ endOfScreen b1 = endOfScreen b).
Proof.
  unfold frontPorch. destruct (FrontPorch sig).
  - unfold bind, modify, send, get, when. cbv zeta.
    match goal with |- context [notify ?rs ?c] => destruct (notify rs c) as [rs1 [e|]] end;
      simpl.
    + repeat split.
    + destruct (Z.gtb_spec (GoInt.int (scanline b + 1)) (ScanlinesTotal (spec b)));
        simpl; do 4 (split; [reflexivity|]); intros [Hf|Hle];
        first [discriminate | lia | split; reflexivity].
  - unfold bind, modify, get, when, fail, ret. simpl.
    destruct (_ >? _); simpl; repeat split.
Qed.




(** *** The limits of the screen *)

Lemma pushLimits_within (sig : SignalAttributes) (b : BasicTelevision) :
  limitsWithin b -> limitsWithin (pushLimits sig b).
Proof.
  unfold limitsWithin, pushLimits. intros [Ht Hb].
  destruct (negb (VBlank sig)); [|auto].
  assert (H1 : 0 <= pendingVisibleTop (pushBottom b)
               /\ pendingVisibleBottom (pushBottom b) <= ScanlinesTotal (spec (pushBottom b))).
  { unfold pushBottom.
    destruct (endOfScreen b && (scanline b >? pendingVisibleBottom b)); [|auto].
    simpl. destruct (Z.gtb_spec (GoInt.int (scanline b + 2)) (ScanlinesTotal (spec b)));
      simpl; lia. }
  revert H1. generalize (pushBottom b). intros b1 [Ht1 Hb1]. unfold pushTop.
  destruct (scanline b1 <? pendingVisibleTop b1); [|auto].
  simpl. destruct (Z.ltb_spec (GoInt.int (scanline b1 - 2)) 0); simpl; lia.
Qed.

Lemma vsync_within (sig : SignalAttributes) (b : BasicTelevision) :
  idealWithin (spec b) -> limitsWithin b -> screenWithin b ->
  spec (fst (vsync sig b)) = spec b
  /\ limitsWithin (fst (vsync sig b))
  /\ screenWithin (fst (vsync sig b)).
Proof.
  unfold idealWithin, limitsWithin, screenWithin. intros Hi Hl Hs.
  unfold vsync. destruct (VSync sig); [simpl; auto|].
  unfold bind, get, when, newFrame, bind, modify, send.
  destruct (vsyncCount b >=? VsyncClocks (spec b)); [|simpl; auto].
  cbv zeta.
  match goal with |- context [notify ?rs ?c] => destruct (notify rs c) as [rs1 [e|]] end;
    simpl; auto.
Qed.

Lemma Signal_within getColor (btv : BasicTelevision) (sig : SignalAttributes) :
  idealWithin (spec btv) -> limitsWithin btv -> screenWithin btv ->
  let after := fst (Signal getColor btv sig) in
  spec after = spec btv /\ limitsWithin after /\ screenWithin after.
Proof.
  intros Hi Hl Hs. cbv zeta. rewrite Signal_phases.
  pose proof (checkHSync_state sig btv) as H1.
  destruct (checkHSync sig btv) as [b1 [u1|e1]]; simpl in H1; subst b1; [|simpl; auto].
  pose proof (checkCBurst_state sig btv) as H2.
  destruct (checkCBurst sig btv) as [b2 [u2|e2]]; simpl in H2; subst b2; [|simpl; auto].
  destruct (vsync_within sig btv Hi Hl Hs) as (Hs3 & Hl3 & Hv3).
  destruct (vsync sig btv) as [b3 [u3|e3]]; simpl in Hs3, Hl3, Hv3; [|simpl; auto].
  destruct (frontPorch_flags sig b3) as (Ft & Fb & Fpt & Fpb & _).
  destruct (frontPorch_quiet sig b3) as (Fs & _).
  assert (Hl4 : limitsWithin (fst (frontPorch sig b3))).
  { unfold limitsWithin in *. rewrite Fpt, Fpb, Fs. exact Hl3. }
  assert (Hv4 : screenWithin (fst (frontPorch sig b3))).
  { unfold screenWithin in *. rewrite Ft, Fb, Fs. exact Hv3. }
  destruct (frontPorch sig b3) as [b4 [u4|e4]]; simpl in Fs, Hl4, Hv4;
    [|simpl; split; [congruence|auto]].
  rewrite tail_pixels.
  destruct (pixels_renderers_only getColor sig (beforePixels sig b4)) as [rs0 Hrs].
  pose proof (pushLimits_within sig b4 Hl4) as Hl5.
  destruct (pushLimits_flags sig b4) as (_ & _ & Pt & Pb & _).
  destruct (pushLimits_settled sig b4) as [Ps _ _ _ _ _].
  assert (Hfin : spec (set_renderers (beforePixels sig b4) rs0) = spec btv
                 /\ limitsWithin (set_renderers (beforePixels sig b4) rs0)
                 /\ screenWithin (set_renderers (beforePixels sig b4) rs0)).
  { unfold limitsWithin, screenWithin in *. simpl. rewrite Pt, Pb, Ps.
    rewrite Ps in Hl5. split; [congruence|split; [exact Hl5|exact Hv4]]. }
  destruct (pixels getColor sig (beforePixels sig b4)) as [b5 [u5|e5]]; simpl in Hrs |- *;
    subst b5; exact Hfin.
Qed.

(** X7.  "keep within limits": on a television whose specification has
    its ideal limits inside the frame, no sequence of signals takes the
    limits of the visible screen, pending or reported, outside the frame:
    the top is never negative and the bottom never beyond the last
    scanline. *)
Theorem Signals_keep_the_limits getColor (sigs : list SignalAttributes) :
  forall btv,
    idealWithin (spec btv) -> limitsWithin btv -> screenWithin btv ->
    limitsWithin (Signals getColor btv sigs)
    /\ screenWithin (Signals getColor btv sigs).
Proof.
  induction sigs as [|sig sigs IH]; intros btv Hi Hl Hs.
  - simpl. auto.
  - destruct (Signal_within getColor btv sig Hi Hl Hs) as (Hs1 & Hl1 & Hv1).
    change (Signals getColor btv (sig :: sigs))
      with (Signals getColor (fst (Signal getColor btv sig)) sigs).
    apply IH; [rewrite Hs1; exact Hi|exact Hl1|exact Hv1].
Qed.
(** *** The theorems above on the sample television *)

Lemma Signal_sends_the_pixels_witness :
  Forall (fun r => exists earlier,
            received r = earlier ++ [SetPixel 1 0 0 0 0 false; SetAltPixel 1 0 0 0 0 false])
         (renderers (fst (Signal sampleGetColor watched noSignal))).
Proof.
  apply (Signal_sends_the_pixels sampleGetColor watched noSignal).
  - vm_compute. reflexivity.
  - vm_compute. reflexivity.
Defined.

Lemma Signal_sends_no_pixel_after_the_screen_witness :
  sameCalls isPixel (renderers (set_scanline watched 262))
            (renderers (fst (Signal sampleGetColor (set_scanline watched 262) frontPorchOn))).
Proof.
  apply (Signal_sends_no_pixel_after_the_screen sampleGetColor
           (set_scanline watched 262) frontPorchOn).
  vm_compute. reflexivity.
Defined.

Lemma Signals_count_vsync_witness :
  let after := Signals sampleGetColor watched [vsyncOn; noSignal; vsyncOn] in
  vsyncCount after = vsyncCount watched + vsyncClocks [vsyncOn; noSignal; vsyncOn]
  /\ frameNum after = frameNum watched
  /\ spec after = spec watched
  /\ sameFrames (renderers watched) (renderers after).
Proof.
  apply (Signals_count_vsync sampleGetColor [vsyncOn; noSignal; vsyncOn] watched).
  - vm_compute. reflexivity.
  - simpl. lia.
  - vm_compute. reflexivity.
  - vm_compute. discriminate.
Defined.



Lemma Signals_keep_the_limits_witness :
  limitsWithin (Signals sampleGetColor watched [vsyncOn; frontPorchOn; noSignal])
  /\ screenWithin (Signals sampleGetColor watched [vsyncOn; frontPorchOn; noSignal]).
Proof.
  apply (Signals_keep_the_limits sampleGetColor [vsyncOn; frontPorchOn; noSignal] watched).
  - vm_compute. split; discriminate.
  - vm_compute. split; discriminate.
  - vm_compute. split; discriminate.
Defined.

End TelevisionFacts.

(** ** The command-line validator *)

Module CommandlineFacts.

Import Commandline.

Open Scope string_scope.

Section TemplateFacts.

Variable mapUpper : string -> string.
Variable ParseFloatOK : string -> bool.
Variable nodeVerbose : node -> string.

Let Validate := Validate mapUpper ParseFloatOK nodeVerbose.

(** The tokens of the two inputs. *)
Lemma TokeniseInput_test_inputs :
  TokeniseInput "TEST arg 10" = mkTokens ["TEST"; "arg"; "10"] 0
  /\ TokeniseInput "TEST arg bar" = mkTokens ["TEST"; "arg"; "bar"] 0.
Proof. split; reflexivity. Qed.

Lemma ParseIntOK_test_inputs : ParseIntOK "10" = true /\ ParseIntOK "bar" = false.
Proof. split; reflexivity. Qed.

(** C8.  With the template TEST (arg [%N]|foo), validating the input
    TEST arg 10 returns nil and validating TEST arg bar returns a
    ValidationError that wraps the error whose text is
    unrecognised argument (bar).  The validation is three calls deep: any
    bound on the depth from three on gives these results. *)
Theorem validate_test_template (extra : nat) :
  returnedError (Validate (3 + extra) testTemplate "TEST arg 10") = Some None
  /\ returnedError (Validate (3 + extra) testTemplate "TEST arg bar")
     = Some (Some (Errors.AtariError Errors.ValidationError
                     [Errors.VError (Errors.PlainError "unrecognised argument (bar)")])).
Proof. split; reflexivity. Qed.

(** The other inputs of the same test: no argument is fine, ARG without
    its number is not. *)
Lemma validate_test_template_others (extra : nat) :
  returnedError (Validate (3 + extra) testTemplate "TEST") = Some None
  /\ returnedError (Validate (3 + extra) testTemplate "TEST arg")
     = Some (Some (Errors.AtariError Errors.ValidationError
                     [Errors.VError
                        (Errors.PlainError (nodeVerbose (mkNode "%N" nodeRequired [] [] None)
                                            ++ " required"))])).
Proof. split; reflexivity. Qed.

(** Two calls deep is not enough for the number to be looked at. *)
Lemma validate_test_template_depth :
  Validate 2 testTemplate "TEST arg 10" = OutOfFuel.
Proof. reflexivity. Qed.

End TemplateFacts.

Section ValidationFacts.

Variable mapUpper : string -> string.
Variable ParseFloatOK : string -> bool.
Variable nodeVerbose : node -> string.

Let ValidateTokens := ValidateTokens mapUpper ParseFloatOK nodeVerbose.
Let findCommand := findCommand mapUpper ParseFloatOK nodeVerbose.

Lemma findCommand_errors (fuel : nat) (c : Commands) (cmd : string) (tk tk' : Tokens)
      (err : Errors.error) (roots : list nat) :
  findCommand fuel c roots cmd tk = Returned tk' (Some err) ->
  Errors.isAtariError err = true
  \/ (err = Errors.PlainError ("unrecognised command (" ++ cmd ++ ")")
      /\ tk' = tk /\ unknownCommand c roots cmd).
Proof.
  subst findCommand. induction roots as [|n roots IH]; simpl; intros H.
  - injection H as <- <-. right. split; [reflexivity|split; [reflexivity|constructor]].
  - destruct (nth_error (nodes c) n) as [nd|] eqn:Hn; [|discriminate].
    destruct (String.eqb_spec cmd (tag nd)) as [Heq|Hne].
    + left. unfold validateCommand in H.
      destruct (validate mapUpper ParseFloatOK nodeVerbose fuel (nodes c) n tk false)
        as [tk1 [e|]| |]; try discriminate.
      * destruct (Errors.isAtariError e) eqn:He; injection H as <- <-; [exact He|reflexivity].
      * destruct (0 <? Remaining tk1)%nat; [|discriminate].
        destruct (Get tk1) as [arg tk2].
        destruct (String.eqb cmd (helpCommand c)); injection H as <- <-; reflexivity.
    + destruct (IH H) as [Ha|[He [Ht Hu]]]; [left; exact Ha|right].
      split; [exact He|split; [exact Ht|]].
      constructor; [|exact Hu]. exists nd. split; [exact Hn|congruence].
Qed.

(** X23.  Every error that [ValidateTokens] returns is an error of the
    errors package, with one exception: when no command of the set has as
    its tag what [strings.ToUpper] makes of the first token, the error is
    the plain one that [fmt.Errorf] makes, unrecognised command with that
    upper-cased token in brackets, and the queue of tokens is as it was.
    This holds whatever the Unicode mapping of [strings.ToUpper] does to a
    token that is not ASCII. *)
Theorem ValidateTokens_errors (fuel : nat) (c : Commands) (tk tk' : Tokens)
        (err : Errors.error) :
  ValidateTokens fuel c tk = Returned tk' (Some err) ->
  Errors.isAtariError err = true
  \/ (exists cmd, Peek tk = Some cmd
        /\ err = Errors.PlainError ("unrecognised command (" ++ Fmt.ToUpper mapUpper cmd ++ ")")
        /\ tk' = tk /\ unknownCommand c (cmds c) (Fmt.ToUpper mapUpper cmd)).
Proof.
  subst ValidateTokens. unfold Commandline.ValidateTokens. intros H.
  destruct (Peek tk) as [cmd|]; [|discriminate].
  destruct (findCommand_errors _ _ _ _ _ _ _ H) as [Ha|Hp]; [left; exact Ha|right].
  exists cmd. split; [reflexivity|exact Hp].
Qed.

(** X24.  A first token of which [strings.ToUpper] makes the tag of no
    command is refused without any node being validated: whatever the
    depth allowed, and whatever follows the token, [ValidateTokens] returns
    the plain error unrecognised command, with the upper-cased token in
    brackets, and leaves the queue as it was.  The error is not wrapped in a
    [ValidationError] as those of a recognised command are. *)
Theorem ValidateTokens_unknown_command (fuel : nat) (c : Commands) (tk : Tokens)
        (cmd : string) :
  Peek tk = Some cmd ->
  unknownCommand c (cmds c) (Fmt.ToUpper mapUpper cmd) ->
  ValidateTokens fuel c tk
  = Returned tk (Some (Errors.PlainError ("unrecognised command (" ++ Fmt.ToUpper mapUpper cmd ++ ")"))).
Proof.
  subst ValidateTokens. unfold Commandline.ValidateTokens. intros -> Hu.
  induction Hu as [|n roots [nd [Hn Hne]] _ IH]; simpl.
  - reflexivity.
  - rewrite Hn. destruct (String.eqb_spec (Fmt.ToUpper mapUpper cmd) (tag nd)) as [Heq|_].
    + contradiction Hne. symmetry. exact Heq.
    + exact IH.
Qed.

End ValidationFacts.

Lemma ValidateTokens_errors_witness :
  Errors.isAtariError
    (Errors.AtariError Errors.ValidationError
       [Errors.VError (Errors.PlainError "unrecognised argument (bar)")]) = true
  \/ (exists cmd, Peek (TokeniseInput "TEST arg bar") = Some cmd
        /\ Errors.AtariError Errors.ValidationError
             [Errors.VError (Errors.PlainError "unrecognised argument (bar)")]
           = Errors.PlainError ("unrecognised command (" ++ Fmt.ToUpper noMapUpper cmd ++ ")")
        /\ mkTokens ["TEST"; "ARG"; "bar"] 3 = TokeniseInput "TEST arg bar"
        /\ unknownCommand testTemplate (cmds testTemplate) (Fmt.ToUpper noMapUpper cmd)).
Proof.
  apply (ValidateTokens_errors noMapUpper noFloat tagOf 3 testTemplate). reflexivity.
Defined.

Lemma ValidateTokens_unknown_command_witness :
  ValidateTokens noMapUpper noFloat tagOf 0 testTemplate (TokeniseInput "list arg 10")
  = Returned (TokeniseInput "list arg 10")
             (Some (Errors.PlainError "unrecognised command (LIST)")).
Proof.
  apply (ValidateTokens_unknown_command noMapUpper noFloat tagOf 0 testTemplate
           (TokeniseInput "list arg 10") "list").
  - reflexivity.
  - constructor; [|constructor]. eexists. split; [reflexivity|discriminate].
Defined.


End CommandlineFacts.

(** ** The television specifications and getColor *)

Module TelevisionSpecFacts.

Import TelevisionSpec.

(** X18.  The two definitions that the file gives of the bottom of the
    visible screen agree: [init] computes it as the total less the
    overscan, and whenever the four portions of a frame add up to its total
    and fit an [int], that is the top plus the visible scanlines, the top
    being the VSYNC and VBLANK scanlines together.  The portions of both
    NTSC and PAL add up. *)
Theorem bottom_is_top_plus_visible (s : Specification) :
  portionsAddUp s ->
  0 <= ScanlinesVSync s -> 0 <= scanlinesVBlank s ->
  0 <= ScanlinesVisible s -> 0 <= ScanlinesOverscan s ->
  ScanlinesTotal s <= GoInt.max_int ->
  ScanlineTop (withLimits s) = ScanlinesVSync s + scanlinesVBlank s
  /\ ScanlineBottom (withLimits s) = ScanlineTop (withLimits s) + ScanlinesVisible s
  /\ ScanlineTop (withLimits s) <= ScanlineBottom (withLimits s) <= ScanlinesTotal s.
Proof.
  unfold portionsAddUp. intros Hsum H1 H2 H3 H4 Hmax. simpl.
  rewrite !GoIntFacts.int_small by (unfold GoInt.min_int, GoInt.max_int in *; lia).
  lia.
Qed.

Lemma bottom_is_top_plus_visible_witness :
  (ScanlineTop SpecNTSC = 3 + 37
   /\ ScanlineBottom SpecNTSC = ScanlineTop SpecNTSC + 192
   /\ ScanlineTop SpecNTSC <= ScanlineBottom SpecNTSC <= 262)
  /\ (ScanlineTop SpecPAL = 3 + 45
      /\ ScanlineBottom SpecPAL = ScanlineTop SpecPAL + 228
      /\ ScanlineTop SpecPAL <= ScanlineBottom SpecPAL <= 312).
Proof.
  split.
  - apply (bottom_is_top_plus_visible
             (mkSpecification "NTSC" Colors.PaletteNTSC 3 37 192 30 262 0 0));
      try reflexivity; simpl; try lia; vm_compute; discriminate.
  - apply (bottom_is_top_plus_visible
             (mkSpecification "PAL" Colors.PalettePAL 3 45 228 36 312 0 0));
      try reflexivity; simpl; try lia; vm_compute; discriminate.
Defined.

Section GetColorFacts.

Variable VideoBlack : Z.
Variable black : Colors.RGB.

Let getColor := getColor VideoBlack black.

Lemma built_palette_entry (raw : list Z) (col : Z) :
  0 <= col < 2 * Z.of_nat (List.length raw) ->
  nth_error (fold_left Colors.appendTwice raw []) (Z.to_nat col)
  = Some (Colors.components (nth (Z.to_nat (col / 2)) raw 0)).
Proof.
  intros Hc.
  rewrite ColorsFacts.lowest_bit_is_ignored.
  assert (Hk : (Z.to_nat col / 2)%nat = Z.to_nat (col / 2)).
  { rewrite Z2Nat.inj_div by lia. reflexivity. }
  rewrite Hk.
  destruct (ColorsFacts.built_palette_pairs raw (Z.to_nat (col / 2))) as [-> _].
  assert (Hlt : (Z.to_nat (col / 2) < List.length raw)%nat).
  { apply Nat2Z.inj_lt. rewrite Z2Nat.id by (apply Z.div_pos; lia).
    apply Z.div_lt_upper_bound; lia. }
  rewrite (nth_error_nth' raw 0 Hlt). reflexivity.
Qed.

(** X19.  On the NTSC and the PAL specification [getColor] returns, for
    every colour signal from 0 to 255 that is not [VideoBlack], the
    components of the raw colour at half the signal: it never indexes the
    palette out of range there, and the lowest bit of the signal does not
    matter. *)
Theorem getColor_of_the_palettes (col : Z) :
  col <> VideoBlack -> 0 <= col <= 255 ->
  getColor SpecNTSC col
  = Some (Colors.components (nth (Z.to_nat (col / 2)) Colors.ntsc32bit 0))
  /\ getColor SpecPAL col
     = Some (Colors.components (nth (Z.to_nat (col / 2)) Colors.pal32bit 0)).
Proof.
  subst getColor. unfold TelevisionSpec.getColor.
  intros Hne Hc. destruct (Z.eqb_spec col VideoBlack) as [|_]; [contradiction|].
  destruct (Z.ltb_spec col 0); [lia|].
  simpl Colors. unfold Colors.PaletteNTSC, Colors.PalettePAL.
  rewrite !built_palette_entry by (simpl List.length; lia). auto.
Qed.

(** X20.  A colour signal other than [VideoBlack] that is below 0 or above
    255 is not a valid index of the palette: [getColor] panics on it, for
    the NTSC and for the PAL specification, while [VideoBlack] itself gives
    the black of the colors package whatever its value is. *)
Theorem getColor_out_of_range (col : Z) :
  col <> VideoBlack -> col < 0 \/ 255 < col ->
  getColor SpecNTSC col = None /\ getColor SpecPAL col = None
  /\ getColor SpecNTSC VideoBlack = Some black
  /\ getColor SpecPAL VideoBlack = Some black.
Proof.
  subst getColor. unfold TelevisionSpec.getColor.
  intros Hne Hc. rewrite Z.eqb_refl.
  destruct (Z.eqb_spec col VideoBlack) as [|_]; [contradiction|].
  destruct (Z.ltb_spec col 0); [auto|].
  simpl Colors. split; [|split; [|split; reflexivity]]; apply nth_error_None.
  - destruct (ColorsFacts.palette_lengths) as [-> _]. lia.
  - destruct (ColorsFacts.palette_lengths) as [_ ->]. lia.
Qed.

End GetColorFacts.

Lemma getColor_of_the_palettes_witness :
  getColor (-1) (Colors.mkRGB 0 0 0) SpecNTSC 0x1f
  = Some (Colors.components (nth (Z.to_nat (0x1f / 2)) Colors.ntsc32bit 0))
  /\ getColor (-1) (Colors.mkRGB 0 0 0) SpecPAL 0x1f
     = Some (Colors.components (nth (Z.to_nat (0x1f / 2)) Colors.pal32bit 0)).
Proof.
  apply (getColor_of_the_palettes (-1) (Colors.mkRGB 0 0 0) 0x1f); lia.
Defined.

Lemma getColor_out_of_range_witness :
  getColor (-1) (Colors.mkRGB 0 0 0) SpecNTSC 256 = None
  /\ getColor (-1) (Colors.mkRGB 0 0 0) SpecPAL 256 = None
  /\ getColor (-1) (Colors.mkRGB 0 0 0) SpecNTSC (-1) = Some (Colors.mkRGB 0 0 0)
  /\ getColor (-1) (Colors.mkRGB 0 0 0) SpecPAL (-1) = Some (Colors.mkRGB 0 0 0).
Proof.
  apply (getColor_out_of_range (-1) (Colors.mkRGB 0 0 0) 256); lia.
Defined.

End TelevisionSpecFacts.

(** ** database/select.go *)

Module DatabaseFacts.

Import Database.

Section SelectFacts.

Variable Entry : Type.
Variable error : Type.
Variable DatabaseSelectEmpty : error.
Variable State : Type.
Variable SortedKeyList : Session Entry -> list Z.

Let SelectAll := SelectAll Entry error State SortedKeyList.
Let SelectKeys := SelectKeys Entry error DatabaseSelectEmpty State SortedKeyList.

Lemma selectAll_no_entry (db : Session Entry) (onSelect : callback Entry error State)
      (keyList : list Z) (s : State) :
  snd (snd (selectAll Entry error State db onSelect keyList s)) = None ->
  fst (snd (selectAll Entry error State db onSelect keyList s)) = None.
Proof.
  revert s. induction keyList as [|k rest IH]; intros s; simpl; [reflexivity|].
  destruct (onSelect s (lookup Entry db k)) as [s1 [[|] [err|]]]; simpl;
    first [discriminate | reflexivity | apply IH].
Qed.

(** X25.  [SelectAll] never returns an entry together with a nil error:
    the entry that it returns when the selection ends without an error is
    nil, whatever the session holds and whatever the callback answers, and
    not the last entry selected.  With a nil callback it returns a nil
    entry and a nil error for every session. *)
Theorem SelectAll_returns_no_entry (db : Session Entry)
        (onSelect : option (callback Entry error State)) (s : State) :
  (snd (snd (SelectAll db onSelect s)) = None ->
   fst (snd (SelectAll db onSelect s)) = None)
  /\ snd (SelectAll db None s) = (None, None).
Proof.
  subst SelectAll. unfold Database.SelectAll. split.
  - apply selectAll_no_entry.
  - simpl orAlways. generalize (SortedKeyList db). intros keyList.
    induction keyList as [|k rest IH]; simpl; [reflexivity|exact IH].
Qed.

Lemma selectKeys_always (db : Session Entry) (keys : list Z) (k : Z)
      (entry : option Entry) (s : State) :
  selectKeys Entry error State db (always Entry error State) (keys ++ [k]) entry s
  = (s, (lookup Entry db k, None)).
Proof.
  revert entry. induction keys as [|k0 keys IH]; intros entry; simpl; [reflexivity|].
  apply IH.
Qed.

(** X26.  With a nil callback [SelectKeys] answers for the last of the keys
    alone: it returns the entry of that key, and when the session has no
    such key the error [DatabaseSelectEmpty], also when keys before it
    were matched. *)
Theorem SelectKeys_answers_for_the_last_key (db : Session Entry) (keys : list Z) (k : Z)
        (s : State) :
  SelectKeys db None (keys ++ [k]) s
  = (s, match lookup Entry db k with
        | Some e => (Some e, None)
        | None => (None, Some DatabaseSelectEmpty)
        end).
Proof.
  subst SelectKeys. unfold Database.SelectKeys.
  assert (Hk : match keys ++ [k] with [] => SortedKeyList db | _ => keys ++ [k] end
               = keys ++ [k]) by (destruct keys; reflexivity).
  rewrite Hk. simpl orAlways. rewrite selectKeys_always.
  destruct (lookup Entry db k); reflexivity.
Qed.

Lemma selectKeys_entry (db : Session Entry) (onSelect : callback Entry error State)
      (keyList : list Z) (s : State) (e : Entry) :
  forall entry,
  fst (snd (selectKeys Entry error State db onSelect keyList entry s)) = Some e ->
  entry = Some e \/ exists k, In k keyList /\ lookup Entry db k = Some e.
Proof.
  revert s. induction keyList as [|k rest IH]; intros s entry; simpl; [auto|].
  destruct (onSelect s (lookup Entry db k)) as [s1 [[|] [err|]]]; simpl; intros H;
    try (right; exists k; split; [left; reflexivity|exact H]).
  destruct (IH _ _ H) as [H1|[k1 [H1 H2]]]; right.
  - exists k. split; [left; reflexivity|exact H1].
  - exists k1. split; [right; exact H1|exact H2].
Qed.

(** X27.  [SelectKeys] never returns a nil entry with a nil error, and an
    entry that it returns, with or without an error, is the one that the
    session holds for one of the keys selected: those given or, when none
    is given, the keys of the session. *)
Theorem SelectKeys_returns_an_entry_of_the_session (db : Session Entry)
        (onSelect : option (callback Entry error State)) (keys : list Z) (s : State) :
  let r := SelectKeys db onSelect keys s in
  (fst (snd r) = None -> snd (snd r) <> None)
  /\ (forall e, fst (snd r) = Some e ->
      exists k, In k (match keys with [] => SortedKeyList db | _ => keys end)
                /\ lookup Entry db k = Some e).
Proof.
  subst SelectKeys. cbv zeta. unfold Database.SelectKeys.
  set (keyList := match keys with [] => SortedKeyList db | _ => keys end).
  pose proof (fun e => selectKeys_entry db (orAlways Entry error State onSelect)
                                         keyList s e None) as He.
  destruct (selectKeys Entry error State db (orAlways Entry error State onSelect) keyList None s)
    as [s1 [[e1|] [err|]]]; simpl in He |- *; split; intros;
    try discriminate; try congruence.
  - destruct (He _ H) as [H1|H1]; [discriminate|exact H1].
  - destruct (He _ H) as [H1|H1]; [discriminate|exact H1].
Qed.

End SelectFacts.

Lemma SelectAll_returns_no_entry_witness :
  (snd (snd (SelectAll string string unit sampleKeyList sampleSession None tt)) = None ->
   fst (snd (SelectAll string string unit sampleKeyList sampleSession None tt)) = None)
  /\ snd (SelectAll string string unit sampleKeyList sampleSession None tt) = (None, None).
Proof.
  apply (SelectAll_returns_no_entry string string unit sampleKeyList sampleSession None tt).
Defined.

Lemma SelectKeys_returns_an_entry_of_the_session_witness :
  let r := SelectKeys string string "empty"%string unit sampleKeyList sampleSession None [] tt in
  (fst (snd r) = None -> snd (snd r) <> None)
  /\ (forall e, fst (snd r) = Some e ->
      exists k, In k (sampleKeyList sampleSession)
                /\ lookup string sampleSession k = Some e).
Proof.
  apply (SelectKeys_returns_an_entry_of_the_session
           string string "empty"%string unit sampleKeyList sampleSession None [] tt).
Defined.

End DatabaseFacts.
